(** * trace_icons: naming rules, collector and emitter

    A shallow embedding of [trace_icons.py].  A Python [str] is modelled by
    the [string] of the bytes of its UTF-8 encoding: searching, replacing and
    slicing at a found position give the same text on the bytes as on the
    characters.  The case mapping of [str.capitalize], which rests on the
    Unicode tables, is taken as a parameter that is known on ASCII strings.
    Python [int] is [Z], an insertion ordered [dict] an association list,
    a [pathlib] path a POSIX path, and the directory that [iterdir] walks a
    finite tree of entries. *)

From Stdlib Require Import Bool Arith ZArith List Ascii String Lia.
From Stdlib Require Import Sorting.Sorted.
From Stdlib Require HexString.
Import ListNotations.

Set Warnings "-register-all".

Local Open Scope string_scope.

(** ** Python string primitives *)

Module PyStr.

(** [sub in s] tested at the head of [s]. *)
Fixpoint starts_with (sub s : string) : bool :=
  match sub with
  | EmptyString => true
  | String a sub' =>
      match s with
      | EmptyString => false
      | String b s' => Ascii.eqb a b && starts_with sub' s'
      end
  end.

(** [s.find(sub)]: lowest index of an occurrence, [None] for Python's -1. *)
Fixpoint find (sub s : string) : option nat :=
  if starts_with sub s then Some 0
  else match s with
       | EmptyString => None
       | String _ s' => option_map S (find sub s')
       end.

(** [sub in s]. *)
Definition contains (sub s : string) : bool :=
  match find sub s with Some _ => true | None => false end.

(** [s[n:]] for [0 <= n]. *)
Fixpoint drop (n : nat) (s : string) : string :=
  match n, s with
  | O, _ => s
  | S _, EmptyString => EmptyString
  | S n', String _ s' => drop n' s'
  end.

(** [s[:n]] for [0 <= n]. *)
Fixpoint take (n : nat) (s : string) : string :=
  match n, s with
  | O, _ => EmptyString
  | S _, EmptyString => EmptyString
  | S n', String c s' => String c (take n' s')
  end.

(** [s.replace(old, new)]: occurrences are taken left to right and do not
    overlap.  [skip] counts the characters of an occurrence that are still
    to be passed over.  For an empty [old] Python inserts [new] before every
    character and at the end. *)
Fixpoint replace_from (old new s : string) (skip : nat) : string :=
  match s with
  | EmptyString =>
      match skip, old with
      | O, EmptyString => new
      | _, _ => EmptyString
      end
  | String c s' =>
      match skip with
      | S k => replace_from old new s' k
      | O =>
          if starts_with old s
          then match old with
               | EmptyString => new ++ String c (replace_from old new s' 0)
               | String _ old' => new ++ replace_from old new s' (length old')
               end
          else String c (replace_from old new s' 0)
      end
  end.

Definition replace (old new s : string) : string := replace_from old new s 0.

(** The case of the ASCII letters. *)
Definition is_upper (c : ascii) : bool :=
  let n := nat_of_ascii c in (65 <=? n)%nat && (n <=? 90)%nat.

Definition is_lower (c : ascii) : bool :=
  let n := nat_of_ascii c in (97 <=? n)%nat && (n <=? 122)%nat.

Definition upper_char (c : ascii) : ascii :=
  if is_lower c then ascii_of_nat (nat_of_ascii c - 32) else c.

Definition lower_char (c : ascii) : ascii :=
  if is_upper c then ascii_of_nat (nat_of_ascii c + 32) else c.

Fixpoint ascii_lower (s : string) : string :=
  match s with
  | EmptyString => EmptyString
  | String c s' => String (lower_char c) (ascii_lower s')
  end.

(** What [s.capitalize()] returns for a string of ASCII characters: the first
    character upper-cased, all the others lower-cased. *)
Definition ascii_capitalize (s : string) : string :=
  match s with
  | EmptyString => EmptyString
  | String c s' => String (upper_char c) (ascii_lower s')
  end.

(** The strings of ASCII characters: every byte is below 128. *)
Fixpoint is_ascii (s : string) : bool :=
  match s with
  | EmptyString => true
  | String c s' => (nat_of_ascii c <? 128)%nat && is_ascii s'
  end.

(** [s.capitalize()].  On other than ASCII strings the result depends on the
    Unicode case tables of the interpreter; the function is a parameter of
    the model, with what is known of it on ASCII strings. *)
Class CaseMap : Type := {
  capitalize : string -> string;
  capitalize_ascii :
    forall s, is_ascii s = true -> capitalize s = ascii_capitalize s
}.

(** The case mapping that leaves every byte above 127 as it is: one case
    mapping that is right on ASCII strings. *)
Definition ascii_case : CaseMap :=
  {| capitalize := ascii_capitalize;
     capitalize_ascii := fun s _ => eq_refl |}.

(** [s.rfind(".")]. *)
Fixpoint rfind_dot (s : string) : option nat :=
  match s with
  | EmptyString => None
  | String c s' =>
      match rfind_dot s' with
      | Some i => Some (S i)
      | None => if Ascii.eqb c "." then Some 0 else None
      end
  end.

(** [sep.join(l)]. *)
Fixpoint join (sep : string) (l : list string) : string :=
  match l with
  | [] => EmptyString
  | [x] => x
  | x :: l' => x ++ sep ++ join sep l'
  end.

End PyStr.

(** ** Naming rules *)

Local Open Scope Z_scope.

(** [get_flags]: the first matching rule decides. *)
Definition get_flags (name : string) : Z :=
  if PyStr.contains "@2x." name then 1
  else if PyStr.contains "@2x_dark" name then 4
  else if PyStr.contains "_dark" name then 2
  else if PyStr.contains "_stroke" name then 8
  else 0.

(** [normalize_name]: the loop over the three targets, then the hyphens. *)
Definition targets : list string := ["_dark"; "_stroke"; "@2x"].

Definition normalize_name (name : string) : string :=
  let result := fold_left (fun result target => PyStr.replace target "" result)
                          targets name in
  PyStr.replace "-" "_" result.

(** ** Paths

    [pathlib.PurePosixPath]: an anchor ([""], ["/"] or ["//"]) and the list
    of components.  Empty components and ["."] are dropped when a path is
    parsed. *)

Module Path.

Record t := mk { root : string; parts : list string }.

Fixpoint split_slash (s : string) : list string :=
  match s with
  | EmptyString => [EmptyString]
  | String c s' =>
      if Ascii.eqb c "/" then EmptyString :: split_slash s'
      else match split_slash s' with
           | x :: r => String c x :: r
           | [] => [String c EmptyString]
           end
  end.

Definition components (s : string) : list string :=
  filter (fun x => negb (String.eqb x "") && negb (String.eqb x "."))
         (split_slash s).

Definition anchor_of (s : string) : string :=
  if PyStr.starts_with "/" s
  then if PyStr.starts_with "//" s && negb (PyStr.starts_with "///" s)
       then "//" else "/"
  else "".

(** [pathlib.Path(s)]. *)
Definition of_string (s : string) : t := mk (anchor_of s) (components s).

(** [p / seg]: an absolute segment replaces [p]. *)
Definition joinpath (p : t) (seg : string) : t :=
  if PyStr.starts_with "/" seg then of_string seg
  else mk (root p) (parts p ++ components seg).

(** [str(p)]; on a POSIX system [p.as_posix()] is the same string. *)
Definition str (p : t) : string :=
  match root p, parts p with
  | EmptyString, [] => "."
  | r, l => r ++ PyStr.join "/" l
  end.

Definition as_posix (p : t) : string := str p.

(** [p.name]: the last component, or the empty string. *)
Definition name (p : t) : string := last (parts p) "".

(** [p.parent]. *)
Definition parent (p : t) : t := mk (root p) (removelast (parts p)).

(** [p.suffix] and [p.stem], by the rule of [pathlib] up to Python 3.12:
    the name is cut at its last dot when that dot is neither its first nor
    its last character. *)
Definition suffix_index (nm : string) : option nat :=
  match PyStr.rfind_dot nm with
  | Some i => if (0 <? i)%nat && (i <? String.length nm - 1)%nat
              then Some i else None
  | None => None
  end.

Definition suffix (p : t) : string :=
  match suffix_index (name p) with
  | Some i => PyStr.drop i (name p)
  | None => ""
  end.

Definition stem (p : t) : string :=
  match suffix_index (name p) with
  | Some i => PyStr.take i (name p)
  | None => name p
  end.

End Path.

(** ** The tree model *)

Module JField.

Record t := mk { name : string; key : Z; flags : Z; path : string }.

Definition dquote : string := String (ascii_of_nat 34) EmptyString.

(** [hex(n)]. *)
Definition hex (n : Z) : string := HexString.of_Z n.

Definition __str__ {U : PyStr.CaseMap} (self : t) : string :=
  "public static final Icon " ++ PyStr.capitalize (name self)
  ++ " = load(" ++ dquote ++ "/" ++ path self ++ dquote ++ ", "
  ++ hex (key self) ++ "L, " ++ hex (flags self) ++ ");".

(** [self.flags |= flags]. *)
Definition or_flags (self : t) (fl : Z) : t :=
  mk (name self) (key self) (Z.lor (flags self) fl) (path self).

End JField.

(** A dict value is a [JField] or a nested dict; a dict keeps its keys in
    insertion order. *)
Inductive node : Type :=
| Leaf (f : JField.t)
| Sub (m : list (string * node)).

Definition dict : Type := list (string * node).

(** [d[k] = v]: an existing key keeps its position. *)
Fixpoint dict_set (k : string) (v : node) (d : dict) : dict :=
  match d with
  | [] => [(k, v)]
  | (k', v') :: d' =>
      if String.eqb k' k then (k', v) :: d' else (k', v') :: dict_set k v d'
  end.

(** The directory tree that [iterdir] and [is_dir] expose, children in the
    order [iterdir] yields them. *)
Inductive fsentry : Type :=
| File (name : string)
| Dir (name : string) (children : list fsentry).

(** ** The collector *)

Module IconCollector.

Record t := mk {
  icon_map : dict;
  key : Z;
  src : string;
  extensions : list string
}.

(** [__init__]: [None] stands for an omitted argument; [x or default]
    also replaces an empty string or an empty list. *)
Definition __init__ (key : option Z) (src : option string)
                    (extensions : option (list string)) : t :=
  mk []
     (match key with Some k => k | None => -243615036 end)
     (match src with
      | Some (String c s) => String c s
      | _ => "."
      end)
     (match extensions with
      | Some (e :: l) => e :: l
      | _ => [".svg"; ".png"]
      end).

Definition set_key (self : t) (k : Z) : t :=
  mk (icon_map self) k (src self) (extensions self).

Definition set_icon_map (self : t) (m : dict) : t :=
  mk m (key self) (src self) (extensions self).

(** The loop over [dest] in [_process_file]: the first [JField] carrying
    [name] gets the flags and the function returns; [None] when the loop
    runs to its end. *)
Fixpoint merge_flags (name : string) (fl : Z) (dest : dict) : option dict :=
  match dest with
  | [] => None
  | (icon_path, Leaf jfield) :: rest =>
      if String.eqb (JField.name jfield) name
      then Some ((icon_path, Leaf (JField.or_flags jfield fl)) :: rest)
      else option_map (cons (icon_path, Leaf jfield)) (merge_flags name fl rest)
  | (icon_path, Sub m) :: rest =>
      option_map (cons (icon_path, Sub m)) (merge_flags name fl rest)
  end.

(** The path stored in a new entry: cut at the first occurrence of the
    source marker, when there is one. *)
Definition source_relative (src : string) (full_name : Path.t) : string :=
  match PyStr.find src (Path.str full_name) with
  | Some idx => PyStr.drop idx (Path.as_posix full_name)
  | None => Path.as_posix full_name
  end.

Definition _process_file (self : t) (path : Path.t) (dest : dict) : dict :=
  if existsb (String.eqb (Path.suffix path)) (extensions self)
  then
    let flags := get_flags (Path.name path) in
    let name := normalize_name (Path.stem path) in
    let full_name := source_relative (src self)
                       (Path.joinpath (Path.parent path) name) in
    match merge_flags name flags dest with
    | Some dest' => dest'
    | None =>
        dict_set full_name
                 (Leaf (JField.mk name (key self) flags full_name)) dest
    end
  else dest.

(** One iteration of the loop of [_process_dir]: [iterdir] yields the child
    as [path / nm], a file or a directory; the state is the collector and
    the dict [imap] that the loop fills. *)
Fixpoint process_child (path : Path.t) (child : fsentry) (st : t * dict)
  {struct child} : t * dict :=
  let (self, imap) := st in
  match child with
  | File nm =>
      let self := set_key self (key self - 1) in
      (self, _process_file self (Path.joinpath path nm) imap)
  | Dir nm children =>
      let (self, sub_map) :=
        fold_left (fun st c => process_child (Path.joinpath path nm) c st)
                  children (self, []) in
      (self, dict_set (Path.name (Path.joinpath path nm)) (Sub sub_map) imap)
  end.

Definition _process_dir (self : t) (path : Path.t) (children : list fsentry)
                        (imap : dict) : t * dict :=
  fold_left (fun st c => process_child path c st) children (self, imap).

(** [process]: [imap] is [self.icon_map] itself, so what the walk writes
    into it is what the collector holds afterwards. *)
Definition process (self : t) (directory : Path.t) (children : list fsentry)
  : t :=
  let (self', imap) := _process_dir self directory children (icon_map self) in
  set_icon_map self' imap.

End IconCollector.

(** ** The emitter *)

Definition nl : string := String (ascii_of_nat 10) EmptyString.

Definition get_header (package name : string) : string :=
  "// GENERATED FILE - DO NOT MODIFY" ++ nl
  ++ "package " ++ package ++ ";" ++ nl
  ++ nl
  ++ "import javax.swing.*;" ++ nl
  ++ "import io.github.proto4j.ui.icon.*;" ++ nl
  ++ nl
  ++ "public final class " ++ name ++ " {" ++ nl
  ++ "    private static final IconManager manager = SVGIconManager.getInstance("
  ++ name ++ ".class);" ++ nl ++ nl ++ nl.

Definition FOOTER : string :=
  nl
  ++ "    private static Icon load(String path, long key, int flags) {" ++ nl
  ++ "            return manager.loadIcon(path, key, flags);" ++ nl
  ++ "    }" ++ nl
  ++ "}".

(** What the loop body of [write] and [write_class] sends to [fp] for the
    item [icon_path], [value]; successive [fp.write] calls append. *)
Fixpoint write_value {U : PyStr.CaseMap} (icon_path : string) (value : node)
  {struct value} : string :=
  match value with
  | Leaf jfield => JField.__str__ jfield ++ nl
  | Sub values =>
      "public static final class "
      ++ PyStr.capitalize (Path.name (Path.of_string icon_path)) ++ " {" ++ nl
      ++ fold_right (fun (kv : string * node) out =>
                       let (k, v) := kv in write_value k v ++ out)
                    "" values
      ++ "}" ++ nl ++ nl
  end.

Definition write_values {U : PyStr.CaseMap} (values : dict) : string :=
  fold_right (fun (kv : string * node) out =>
                let (k, v) := kv in write_value k v ++ out)
             "" values.

Definition write_class {U : PyStr.CaseMap} (path : Path.t) (values : dict)
  : string :=
  "public static final class " ++ PyStr.capitalize (Path.name path)
  ++ " {" ++ nl ++ write_values values ++ "}" ++ nl ++ nl.

Definition write {U : PyStr.CaseMap} (package name : string) (values : dict)
  : string :=
  get_header package name ++ write_values values ++ FOOTER.

(** ** Vocabulary of the properties *)

(** The [JField]s held directly by one dict, in iteration order. *)
Fixpoint dict_leaves (d : dict) : list JField.t :=
  match d with
  | [] => []
  | (_, Leaf f) :: d' => f :: dict_leaves d'
  | (_, Sub _) :: d' => dict_leaves d'
  end.

(** The entries of one dict that carry the name [nm]. *)
Definition named (nm : string) (d : dict) : list JField.t :=
  filter (fun f => String.eqb (JField.name f) nm) (dict_leaves d).

(** Every [JField] of a tree, nested dicts included. *)
Fixpoint node_leaves (v : node) : list JField.t :=
  match v with
  | Leaf f => [f]
  | Sub m =>
      flat_map (fun kv : string * node => let (_, v') := kv in node_leaves v')
               m
  end.

Definition tree_leaves (d : dict) : list JField.t := node_leaves (Sub d).

Definition tree_keys (d : dict) : list Z := map JField.key (tree_leaves d).

(** Within one dict no two entries carry the same name. *)
Definition unique_names (d : dict) : Prop :=
  NoDup (map JField.name (dict_leaves d)).

(** [unique_names] in a dict and in every dict nested in it. *)
Inductive wf_node : node -> Prop :=
| wf_Leaf : forall f, wf_node (Leaf f)
| wf_Sub : forall m,
    unique_names m ->
    Forall (fun kv : string * node => wf_node (snd kv)) m ->
    wf_node (Sub m).

Definition wf_dict (d : dict) : Prop := wf_node (Sub d).

(** Every bit of [a] is a bit of [b]. *)
Definition bits_subset (a b : Z) : Prop :=
  forall n, Z.testbit a n = true -> Z.testbit b n = true.

(** The number of non-directory entries below a directory, those of its
    subdirectories included: the entries [_process_dir] visits. *)
Fixpoint count_files (e : fsentry) : nat :=
  match e with
  | File _ => 1
  | Dir _ children => fold_right (fun c n => (count_files c + n)%nat) O children
  end.

Definition count_files_in (children : list fsentry) : nat :=
  fold_right (fun c n => (count_files c + n)%nat) O children.

(** [path.suffix in self.extensions]. *)
Definition is_icon (self : IconCollector.t) (path : Path.t) : bool :=
  existsb (String.eqb (Path.suffix path)) (IconCollector.extensions self).

(** Whether [_process_file] builds a new [JField] for [path]. *)
Definition creates (self : IconCollector.t) (path : Path.t) (dest : dict)
  : bool :=
  is_icon self path
  && match IconCollector.merge_flags (normalize_name (Path.stem path))
                                     (get_flags (Path.name path)) dest with
     | Some _ => false
     | None => true
     end.

(** The keys given to the entries built while [child] is processed from the
    state [st], in the order in which they are built. *)
Fixpoint created_keys (path : Path.t) (child : fsentry)
                      (st : IconCollector.t * dict) {struct child} : list Z :=
  match child with
  | File nm =>
      let self :=
        IconCollector.set_key (fst st) (IconCollector.key (fst st) - 1) in
      if creates self (Path.joinpath path nm) (snd st)
      then [IconCollector.key self] else []
  | Dir nm children =>
      (fix go (l : list fsentry) (st' : IconCollector.t * dict) : list Z :=
         match l with
         | [] => []
         | c :: l' =>
             (created_keys (Path.joinpath path nm) c st'
              ++ go l' (IconCollector.process_child (Path.joinpath path nm)
                                                    c st'))%list
         end) children (fst st, [])
  end.

Fixpoint created_keys_in (path : Path.t) (children : list fsentry)
                         (st : IconCollector.t * dict) : list Z :=
  match children with
  | [] => []
  | c :: l =>
      (created_keys path c st
       ++ created_keys_in path l (IconCollector.process_child path c st))%list
  end.

(** No target of [normalize_name] occurs in [t]. *)
Definition target_free (t : string) : bool :=
  forallb (fun target => negb (PyStr.contains target t)) targets.

(** The identifier as the specification words it: the first character
    capitalized, the others left as they are. *)
Definition capitalize_first_only (s : string) : string :=
  match s with
  | EmptyString => EmptyString
  | String c s' => String (PyStr.upper_char c) s'
  end.

(** The declaration line as the specification words it. *)
Definition spec_declaration (f : JField.t) : string :=
  "public static final Icon " ++ capitalize_first_only (JField.name f)
  ++ " = load(" ++ JField.dquote ++ "/" ++ JField.path f ++ JField.dquote
  ++ ", " ++ JField.hex (JField.key f) ++ "L, "
  ++ JField.hex (JField.flags f) ++ ");".

(** [line] is a contiguous part of the text [s]. *)
Definition occurs_in (line s : string) : Prop :=
  exists pre post, s = pre ++ line ++ post.

(** What a stretch of the walk from the state [(self, imap)] to the state
    [st'], building the entries with keys [log], does to the keys. *)
Definition keys_ok (self : IconCollector.t) (imap : dict)
                   (st' : IconCollector.t * dict) (log : list Z) : Prop :=
  IconCollector.key (fst st') <= IconCollector.key self
  /\ StronglySorted Z.gt log
  /\ (forall x, In x log ->
                IconCollector.key (fst st') <= x < IconCollector.key self)
  /\ (forall x, In x (tree_keys (snd st')) ->
                In x (tree_keys imap) \/ In x log)
  /\ (NoDup (tree_keys imap) ->
      (forall x, In x (tree_keys imap) -> IconCollector.key self <= x) ->
      NoDup (tree_keys (snd st'))).

(** ** The command line

    The body of the [__main__] block, after [argparse] has filled [argv]: the
    text that is written to [argv.out], for the directory tree found under
    [argv.path]. *)

Module Main.

Record args := mk {
  path : string;
  out : string;
  name : string;
  package : string;
  src : string
}.

Definition collect (argv : args) (children : list fsentry) : IconCollector.t :=
  let collector := IconCollector.__init__ None (Some (src argv)) None in
  IconCollector.process collector (Path.of_string (path argv)) children.

Definition main {U : PyStr.CaseMap} (argv : args) (children : list fsentry)
  : string :=
  write (package argv) (name argv)
        (IconCollector.icon_map (collect argv children)).

End Main.

(** ** Vocabulary of the further properties *)

(** [P] holds of a dict and of every dict nested in it. *)
Inductive every_dict (P : dict -> Prop) : node -> Prop :=
| every_Leaf : forall f, every_dict P (Leaf f)
| every_Sub : forall m,
    P m ->
    Forall (fun kv : string * node => every_dict P (snd kv)) m ->
    every_dict P (Sub m).

(** The entries of one dict, each with the key it is stored under. *)
Fixpoint dict_items (d : dict) : list (string * JField.t) :=
  match d with
  | [] => []
  | (k, Leaf f) :: d' => (k, f) :: dict_items d'
  | (_, Sub _) :: d' => dict_items d'
  end.

(** Every entry of the dict is stored under its own path. *)
Definition keyed_by_path (d : dict) : Prop :=
  forall k f, In (k, f) (dict_items d) -> k = JField.path f.

(** No entry of the dict has a hyphen in its name. *)
Definition names_without_hyphen (d : dict) : Prop :=
  forall f, In f (dict_leaves d) -> PyStr.contains "-" (JField.name f) = false.

(** The flags of every entry of the dict are a mask of the four variant
    bits. *)
Definition flags_in_range (d : dict) : Prop :=
  forall f, In f (dict_leaves d) -> 0 <= JField.flags f <= 15.

(** The dict has no key twice. *)
Definition keys_distinct (d : dict) : Prop := NoDup (map fst d).

(** The nested dicts of a tree at any depth, each with the key it is stored
    under. *)
Fixpoint node_subs (k : string) (v : node) : list (string * dict) :=
  match v with
  | Leaf _ => []
  | Sub m =>
      (k, m)
      :: flat_map (fun kv : string * node => let (k', v') := kv in node_subs k' v')
                  m
  end.

Definition tree_subs (d : dict) : list (string * dict) :=
  flat_map (fun kv : string * node => let (k', v') := kv in node_subs k' v') d.

(** The number of files with an accepted extension below a directory. *)
Fixpoint count_icons (self : IconCollector.t) (path : Path.t) (e : fsentry)
  : nat :=
  match e with
  | File nm => if is_icon self (Path.joinpath path nm) then 1 else 0
  | Dir nm children =>
      fold_right (fun c n => (count_icons self (Path.joinpath path nm) c + n)%nat)
                 O children
  end.

Definition count_icons_in (self : IconCollector.t) (path : Path.t)
                          (children : list fsentry) : nat :=
  fold_right (fun c n => (count_icons self path c + n)%nat) O children.

(** A string that [pathlib] takes as exactly one path component. *)
Definition single_component (nm : string) : bool :=
  negb (PyStr.starts_with "/" nm)
  && match Path.components nm with
     | [x] => String.eqb x nm
     | _ => false
     end.

(** The names of the files among the children of a directory. *)
Fixpoint file_names (children : list fsentry) : list string :=
  match children with
  | [] => []
  | File nm :: l => nm :: file_names l
  | Dir _ _ :: l => file_names l
  end.

(** The names of the subdirectories among the children of a directory. *)
Fixpoint dir_names (children : list fsentry) : list string :=
  match children with
  | [] => []
  | File _ :: l => dir_names l
  | Dir nm _ :: l => nm :: dir_names l
  end.

(** A string made of the targets of [normalize_name] only. *)
Definition concat_targets (l : list string) : string :=
  fold_right append "" l.

(** A child as a directory listing gives it: its name is one path
    component, and so is the normalized name of a file with an accepted
    extension. *)
Definition plain_child (self : IconCollector.t) (path : Path.t)
                       (c : fsentry) : bool :=
  match c with
  | File nm =>
      single_component nm
      && (negb (is_icon self (Path.joinpath path nm))
          || single_component
               (normalize_name (Path.stem (Path.joinpath path nm))))
  | Dir nm _ => single_component nm
  end.

(** * Properties *)

(** ** Strings *)

Section StringFacts.

Import PyStr.

Lemma contains_cons (sub : string) (c : ascii) (s : string) :
  contains sub (String c s) = starts_with sub (String c s) || contains sub s.
Proof.
  unfold contains. cbn [find].
  destruct (starts_with sub (String c s)); [reflexivity|].
  destruct (find sub s); reflexivity.
Qed.

Lemma contains_empty (sub : string) :
  contains sub "" = true -> sub = "".
Proof.
  unfold contains. cbn [find].
  destruct sub; [reflexivity|]. cbn. discriminate.
Qed.

Lemma replace_absent (old new s : string) :
  contains old s = false -> replace old new s = s.
Proof.
  unfold replace. induction s as [|c s IH]; intros H.
  - destruct old; [discriminate H | reflexivity].
  - rewrite contains_cons in H. apply orb_false_elim in H as [H1 H2].
    cbn [replace_from]. rewrite H1, (IH H2). reflexivity.
Qed.

Lemma length_replace_from_le (old s : string) :
  forall k, (length (replace_from old "" s k) <= length s)%nat.
Proof.
  induction s as [|c s IH]; intros k.
  - cbn. destruct k, old; cbn; lia.
  - cbn [replace_from]. destruct k as [|k].
    + destruct (starts_with old (String c s)).
      * destruct old as [|a old'].
        -- cbn. specialize (IH O). lia.
        -- cbn [append String.length]. specialize (IH (length old')). lia.
      * cbn [String.length]. specialize (IH O). lia.
    + cbn [String.length]. specialize (IH k). lia.
Qed.

Lemma length_replace_lt (old s : string) :
  old <> "" -> contains old s = true ->
  (length (replace old "" s) < length s)%nat.
Proof.
  intros Hne. unfold replace. induction s as [|c s IH]; intros H.
  - apply contains_empty in H. contradiction.
  - rewrite contains_cons in H. cbn [replace_from].
    destruct (starts_with old (String c s)) eqn:E.
    + destruct old as [|a old']; [contradiction|].
      cbn [append String.length].
      pose proof (length_replace_from_le (String a old') s (length old')). lia.
    + cbn in H. cbn [String.length]. specialize (IH H). lia.
Qed.

Lemma length_replace_hyphen (s : string) :
  length (replace "-" "_" s) = length s.
Proof.
  unfold replace. induction s as [|c s IH]; [reflexivity|].
  cbn [replace_from]. destruct (starts_with "-" (String c s));
    cbn [append String.length]; rewrite IH; reflexivity.
Qed.

Lemma replace_hyphen_clean (s : string) :
  contains "-" (replace "-" "_" s) = false.
Proof.
  unfold replace. induction s as [|c s IH]; [reflexivity|].
  cbn [replace_from]. destruct (starts_with "-" (String c s)) eqn:E.
  - cbn [append String.length]. rewrite contains_cons, IH. reflexivity.
  - rewrite contains_cons, IH. cbn [starts_with] in E |- *.
    destruct (Ascii.eqb "-" c); [discriminate E | reflexivity].
Qed.

(** [find] returns a position where [sub] starts, and the lowest one. *)
Lemma find_Some (sub s : string) (i : nat) :
  find sub s = Some i ->
  s = take i s ++ drop i s
  /\ length (take i s) = i
  /\ starts_with sub (drop i s) = true
  /\ forall j, (j < i)%nat -> starts_with sub (drop j s) = false.
Proof.
  revert i. induction s as [|c s IH]; intros i H; cbn [find] in H.
  - destruct (starts_with sub "") eqn:E; [|discriminate H].
    injection H as <-. cbn. repeat split; auto. intros j Hj; lia.
  - destruct (starts_with sub (String c s)) eqn:E.
    + injection H as <-. cbn. repeat split; auto. intros j Hj; lia.
    + destruct (find sub s) as [i'|] eqn:F; [|discriminate H].
      injection H as <-. destruct (IH i' eq_refl) as (H1 & H2 & H3 & H4).
      cbn [take drop append String.length]. repeat split.
      * f_equal. exact H1.
      * f_equal. exact H2.
      * exact H3.
      * intros [|j] Hj; [exact E|]. cbn [drop]. apply H4. lia.
Qed.

Lemma find_None (sub s : string) :
  find sub s = None -> forall j, starts_with sub (drop j s) = false.
Proof.
  induction s as [|c s IH]; intros H j; cbn [find] in H.
  - destruct (starts_with sub "") eqn:E; [discriminate H|].
    destruct j; exact E.
  - destruct (starts_with sub (String c s)) eqn:E; [discriminate H|].
    destruct (find sub s) eqn:F; [discriminate H|].
    destruct j as [|j]; [exact E|]. cbn [drop]. apply IH. reflexivity.
Qed.

End StringFacts.

(** ** Naming rules *)

Lemma normalize_name_fixed (t : string) :
  target_free t = true ->
  PyStr.contains "-" t = false ->
  normalize_name t = t.
Proof.
  unfold target_free, targets. cbn [forallb]. intros Ht Hh.
  repeat (apply andb_prop in Ht as [?%negb_true_iff Ht]).
  unfold normalize_name, targets. cbn [fold_left].
  rewrite (replace_absent "_dark") by assumption.
  rewrite (replace_absent "_stroke") by assumption.
  rewrite (replace_absent "@2x") by assumption.
  apply replace_absent. exact Hh.
Qed.

Lemma normalize_name_no_hyphen (s : string) :
  PyStr.contains "-" (normalize_name s) = false.
Proof. apply replace_hyphen_clean. Qed.

Lemma normalize_name_fixed_inv (t : string) :
  normalize_name t = t -> target_free t = true.
Proof.
  unfold normalize_name, target_free, targets. cbn [fold_left forallb].
  intros H. apply (f_equal String.length) in H.
  rewrite length_replace_hyphen in H.
  remember (PyStr.replace "_dark" "" t) as t1 eqn:D1.
  remember (PyStr.replace "_stroke" "" t1) as t2 eqn:D2.
  remember (PyStr.replace "@2x" "" t2) as t3 eqn:D3.
  assert (L1 : (length t1 <= length t)%nat)
    by (subst t1; apply length_replace_from_le).
  assert (L2 : (length t2 <= length t1)%nat)
    by (subst t2; apply length_replace_from_le).
  assert (L3 : (length t3 <= length t2)%nat)
    by (subst t3; apply length_replace_from_le).
  destruct (PyStr.contains "_dark" t) eqn:E1.
  { apply length_replace_lt in E1; [|discriminate]. rewrite <- D1 in E1. lia. }
  rewrite (replace_absent _ _ _ E1) in D1. subst t1.
  destruct (PyStr.contains "_stroke" t) eqn:E2.
  { apply length_replace_lt in E2; [|discriminate]. rewrite <- D2 in E2. lia. }
  rewrite (replace_absent _ _ _ E2) in D2. subst t2.
  destruct (PyStr.contains "@2x" t) eqn:E3.
  { apply length_replace_lt in E3; [|discriminate]. rewrite <- D3 in E3. lia. }
  reflexivity.
Qed.

(** [normalize_name] returns its argument unchanged exactly on the names
    that hold no target and no hyphen. *)
Lemma normalize_name_fixed_iff (t : string) :
  normalize_name t = t <->
  target_free t = true /\ PyStr.contains "-" t = false.
Proof.
  split.
  - intros H. split; [apply normalize_name_fixed_inv; exact H|].
    rewrite <- H. apply normalize_name_no_hyphen.
  - intros [H1 H2]. apply normalize_name_fixed; assumption.
Qed.

(** C1, as stated, fails: a name with ["@2x_dark"] and without ["@2x."]
    reaches the second branch of [get_flags], which returns 4. *)
Lemma flag_4_reachable :
  PyStr.contains "@2x_dark" "icon@2x_dark.svg" = true
  /\ get_flags "icon@2x_dark.svg" = 4
  /\ get_flags "icon@2x_dark.svg" <> 1.
Proof. repeat split. discriminate. Qed.

(** C1 (amended): for every filename containing ["@2x_dark"], [get_flags]
    returns 4, unless the filename also contains ["@2x."], in which case it
    returns 1. *)
Theorem get_flags_2x_dark (name : string) :
  PyStr.contains "@2x_dark" name = true ->
  get_flags name = if PyStr.contains "@2x." name then 1 else 4.
Proof.
  intros H. unfold get_flags. rewrite H. reflexivity.
Qed.

Lemma get_flags_2x_dark_witness :
  PyStr.contains "@2x_dark" "icon@2x_dark.svg" = true
  /\ get_flags "icon@2x_dark.svg"
     = if PyStr.contains "@2x." "icon@2x_dark.svg" then 1 else 4.
Proof.
  split; [reflexivity|].
  apply (get_flags_2x_dark "icon@2x_dark.svg"); reflexivity.
Defined.

(** C9: for every filename containing ["@2x."], [get_flags] returns 1,
    whatever other variant substrings the filename holds. *)
Theorem get_flags_2x_dot (name : string) :
  PyStr.contains "@2x." name = true -> get_flags name = 1.
Proof.
  intros H. unfold get_flags. rewrite H. reflexivity.
Qed.

Lemma get_flags_2x_dot_witness :
  PyStr.contains "@2x." "icon_stroke@2x_dark_dark@2x.svg" = true
  /\ get_flags "icon_stroke@2x_dark_dark@2x.svg" = 1.
Proof.
  split; [reflexivity|].
  apply (get_flags_2x_dot "icon_stroke@2x_dark_dark@2x.svg"); reflexivity.
Defined.

(** C2, as stated, fails: removing ["@2x"] or turning a hyphen into an
    underscore can build a new target. *)
Lemma normalize_name_not_idempotent :
  normalize_name "-dark" = "_dark"
  /\ normalize_name (normalize_name "-dark") = ""
  /\ normalize_name (normalize_name "-dark") <> normalize_name "-dark".
Proof. repeat split. discriminate. Qed.

(** C2 (amended): for every string [s] whose normalized name holds none of
    ["_dark"], ["_stroke"], ["@2x"], normalizing the normalized name returns
    it unchanged. *)
Theorem normalize_name_idempotent (s : string) :
  target_free (normalize_name s) = true ->
  normalize_name (normalize_name s) = normalize_name s.
Proof.
  intros H. apply normalize_name_fixed; [exact H|].
  apply normalize_name_no_hyphen.
Qed.

Lemma normalize_name_idempotent_witness :
  target_free (normalize_name "my-icon_dark@2x") = true
  /\ normalize_name (normalize_name "my-icon_dark@2x")
     = normalize_name "my-icon_dark@2x".
Proof.
  split; [reflexivity|].
  apply (normalize_name_idempotent "my-icon_dark@2x"); reflexivity.
Defined.

(** The condition on the normalized name is also necessary. *)
Lemma twice_normalized_iff_target_free (s : string) :
  normalize_name (normalize_name s) = normalize_name s
  <-> target_free (normalize_name s) = true.
Proof.
  split; [apply normalize_name_fixed_inv|].
  intros H. apply normalize_name_fixed; [exact H|].
  apply normalize_name_no_hyphen.
Qed.

(** ** The emitter *)

Lemma append_assoc (a b c : string) : (a ++ b) ++ c = a ++ b ++ c.
Proof.
  induction a as [|x a IH]; cbn; [reflexivity | rewrite IH; reflexivity].
Qed.

Lemma append_nil_r (a : string) : a ++ "" = a.
Proof.
  induction a as [|x a IH]; cbn; [reflexivity | rewrite IH; reflexivity].
Qed.

Lemma occurs_in_refl (x : string) : occurs_in x x.
Proof. exists "", "". cbn. rewrite append_nil_r. reflexivity. Qed.

Lemma occurs_in_app_l (x a b : string) : occurs_in x a -> occurs_in x (a ++ b).
Proof.
  intros (pre & post & ->). exists pre, (post ++ b).
  rewrite !append_assoc. reflexivity.
Qed.

Lemma occurs_in_app_r (x a b : string) : occurs_in x b -> occurs_in x (a ++ b).
Proof.
  intros (pre & post & ->). exists (a ++ pre), post.
  rewrite !append_assoc. reflexivity.
Qed.

(** Induction on a tree, with the hypothesis for every value of a nested
    dict. *)
Lemma node_nested_ind (P : node -> Prop) :
  (forall f, P (Leaf f)) ->
  (forall m, Forall (fun kv : string * node => P (snd kv)) m -> P (Sub m)) ->
  forall v, P v.
Proof.
  intros HL HS. fix IH 1. intros [f|m]; [apply HL|]. apply HS.
  induction m as [|[k v] m IHm]; constructor; [apply IH | exact IHm].
Qed.

Lemma write_value_Sub {U : PyStr.CaseMap} (icon_path : string)
                      (values : dict) :
  write_value icon_path (Sub values)
  = write_class (Path.of_string icon_path) values.
Proof. reflexivity. Qed.

Lemma write_value_occurs {U : PyStr.CaseMap} (v : node) :
  forall k f, In f (node_leaves v) ->
              occurs_in (JField.__str__ f ++ nl) (write_value k v).
Proof.
  induction v as [f0|m IH] using node_nested_ind; intros k f Hin.
  - destruct Hin as [<-|[]]. apply occurs_in_refl.
  - rewrite write_value_Sub. unfold write_class.
    apply occurs_in_app_r, occurs_in_app_r, occurs_in_app_r, occurs_in_app_r.
    apply occurs_in_app_l. cbn [node_leaves] in Hin.
    induction m as [|[k' v'] m IHm]; [destruct Hin|].
    inversion IH as [|? ? Hv Hm]; subst. cbn [flat_map] in Hin.
    apply in_app_or in Hin as [Hin|Hin]; cbn [write_values fold_right].
    + apply occurs_in_app_l. apply Hv. exact Hin.
    + apply occurs_in_app_r. apply IHm; assumption.
Qed.

Lemma hex_round_trip (n : Z) : HexString.to_Z (JField.hex n) = n.
Proof. apply HexString.to_Z_of_Z. Qed.

Lemma hex_sign (n : Z) :
  PyStr.starts_with (if n <? 0 then "-0x" else "0x") (JField.hex n) = true.
Proof. destruct n; reflexivity. Qed.

(** On a name of ASCII characters every case mapping gives the first
    character upper-cased and the others lower-cased. *)
Lemma capitalize_ascii_name {U : PyStr.CaseMap} (s : string) :
  PyStr.is_ascii s = true ->
  PyStr.capitalize s
  = match s with
    | EmptyString => EmptyString
    | String c s' => String (PyStr.upper_char c) (PyStr.ascii_lower s')
    end.
Proof.
  intros H. rewrite (PyStr.capitalize_ascii s H). destruct s; reflexivity.
Qed.

(** C4, as stated, fails: [capitalize] also lower-cases every character
    after the first, so the identifier of ["myIcon"] is ["Myicon"]. *)
Lemma declaration_alters_other_characters :
  let f := JField.mk "myIcon" (-243615037) 0 "icons/myIcon" in
  PyStr.is_ascii (JField.name f) = true
  /\ write_value (U := PyStr.ascii_case) "icons/myIcon" (Leaf f)
     = "public static final Icon Myicon = load(" ++ JField.dquote
       ++ "/icons/myIcon" ++ JField.dquote ++ ", -0xe85453dL, 0x0);" ++ nl
  /\ write_value (U := PyStr.ascii_case) "icons/myIcon" (Leaf f)
     <> spec_declaration f ++ nl.
Proof. split; [reflexivity|]. split; [reflexivity | discriminate]. Qed.

(** C4 (amended): for every entry of the tree, the text [write] produces
    holds the line made of [public static final Icon], the entry's name put
    through [str.capitalize], and a call of [load] on the path after a slash,
    [hex] of the key followed by [L], and [hex] of the flags; for a name of
    ASCII characters the identifier is the name with its first character
    upper-cased and every other character lower-cased. *)
Theorem declaration_line {U : PyStr.CaseMap} (package cls : string)
                         (values : dict) (f : JField.t) :
  In f (tree_leaves values) ->
  occurs_in
    ("public static final Icon " ++ PyStr.capitalize (JField.name f)
     ++ " = load(" ++ JField.dquote ++ "/" ++ JField.path f ++ JField.dquote
     ++ ", " ++ HexString.of_Z (JField.key f) ++ "L, "
     ++ HexString.of_Z (JField.flags f) ++ ");" ++ nl)
    (write package cls values)
  /\ (PyStr.is_ascii (JField.name f) = true ->
      PyStr.capitalize (JField.name f)
      = match JField.name f with
        | EmptyString => EmptyString
        | String c s => String (PyStr.upper_char c) (PyStr.ascii_lower s)
        end).
Proof.
  intros Hin. split; [|apply capitalize_ascii_name].
  unfold write. apply occurs_in_app_r, occurs_in_app_l.
  assert (E : JField.__str__ f ++ nl
              = "public static final Icon " ++ PyStr.capitalize (JField.name f)
                ++ " = load(" ++ JField.dquote ++ "/" ++ JField.path f
                ++ JField.dquote ++ ", " ++ HexString.of_Z (JField.key f)
                ++ "L, " ++ HexString.of_Z (JField.flags f) ++ ");" ++ nl).
  { unfold JField.__str__, JField.hex. rewrite !append_assoc. reflexivity. }
  rewrite <- E. clear E.
  induction values as [|[k v] m IHm]; [destruct Hin|].
  cbn [tree_leaves node_leaves flat_map] in Hin.
  apply in_app_or in Hin as [Hin|Hin]; cbn [write_values fold_right].
  - apply occurs_in_app_l. apply write_value_occurs. exact Hin.
  - apply occurs_in_app_r. apply IHm. exact Hin.
Qed.

Lemma declaration_line_witness :
  let run := JField.mk "run" (-243615041) 0 "icons/toolbar/run" in
  let values :=
    [("icons/foo", Leaf (JField.mk "foo" (-243615037) 2 "icons/foo"));
     ("toolbar", Sub [("icons/toolbar/run", Leaf run)])] in
  In run (tree_leaves values)
  /\ occurs_in
       ("public static final Icon Run = load(" ++ JField.dquote
        ++ "/icons/toolbar/run" ++ JField.dquote
        ++ ", -0xe854541L, 0x0);" ++ nl)
       (write (U := PyStr.ascii_case) "demo" "Icons" values)
  /\ (PyStr.is_ascii "run" = true ->
      PyStr.capitalize (CaseMap := PyStr.ascii_case) "run" = "Run").
Proof.
  split; [cbn; auto|].
  apply (declaration_line (U := PyStr.ascii_case) "demo" "Icons"
           [("icons/foo", Leaf (JField.mk "foo" (-243615037) 2 "icons/foo"));
            ("toolbar",
             Sub [("icons/toolbar/run",
                   Leaf (JField.mk "run" (-243615041) 0 "icons/toolbar/run"))])]
           (JField.mk "run" (-243615041) 0 "icons/toolbar/run")).
  cbn; auto.
Defined.

(** ** Dicts *)

Section DictFacts.

Import IconCollector.

Lemma named_nil_iff (nm : string) (d : dict) :
  named nm d = [] <-> ~ In nm (map JField.name (dict_leaves d)).
Proof.
  unfold named. induction (dict_leaves d) as [|f l IH]; cbn.
  - tauto.
  - destruct (String.eqb_spec (JField.name f) nm) as [E|E].
    + split; [discriminate | intros H; exfalso; apply H; auto].
    + rewrite IH. split; [intros H [H'|H']; auto | intros H H'; apply H; auto].
Qed.

Lemma merge_flags_None (nm : string) (fl : Z) (d : dict) :
  merge_flags nm fl d = None <-> named nm d = [].
Proof.
  unfold named.
  induction d as [|[k [f|m]] d IH]; cbn [merge_flags dict_leaves filter].
  - tauto.
  - destruct (String.eqb (JField.name f) nm).
    + split; discriminate.
    + destruct (merge_flags nm fl d); cbn [option_map].
      * split; [discriminate | intros H; apply IH in H; discriminate].
      * split; [intros _; apply IH; reflexivity | reflexivity].
  - destruct (merge_flags nm fl d); cbn [option_map].
    + split; [discriminate | intros H; apply IH in H; discriminate].
    + split; [intros _; apply IH; reflexivity | reflexivity].
Qed.

(** A successful merge ORs the flags into the first entry of that name and
    leaves the rest of the dict as it is. *)
Lemma merge_flags_named (nm : string) (fl : Z) (d d' : dict) :
  merge_flags nm fl d = Some d' ->
  exists f rest,
    named nm d = f :: rest
    /\ named nm d' = JField.or_flags f fl :: rest
    /\ forall other, other <> nm -> named other d' = named other d.
Proof.
  unfold named. revert d'.
  induction d as [|[k [f|m]] d IH]; intros d' H;
    cbn [merge_flags dict_leaves filter] in *.
  - discriminate H.
  - destruct (String.eqb_spec (JField.name f) nm) as [E|E].
    + injection H as <-.
      exists f, (filter (fun f0 => String.eqb (JField.name f0) nm)
                        (dict_leaves d)).
      cbn [dict_leaves filter JField.or_flags JField.name].
      rewrite E, String.eqb_refl. repeat split.
      intros other Ho.
      destruct (String.eqb_spec nm other); [congruence | reflexivity].
    + destruct (merge_flags nm fl d) as [d0|]; [|discriminate H].
      injection H as <-. destruct (IH d0 eq_refl) as (f0 & rest & H1 & H2 & H3).
      exists f0, rest. cbn [dict_leaves filter].
      destruct (String.eqb_spec (JField.name f) nm); [contradiction|].
      repeat split; auto. intros other Ho. rewrite (H3 other Ho). reflexivity.
  - destruct (merge_flags nm fl d) as [d0|]; [|discriminate H].
    injection H as <-. destruct (IH d0 eq_refl) as (f0 & rest & H1 & H2 & H3).
    exists f0, rest. cbn [dict_leaves]. auto.
Qed.

Lemma merge_flags_names (nm : string) (fl : Z) (d d' : dict) :
  merge_flags nm fl d = Some d' ->
  map JField.name (dict_leaves d') = map JField.name (dict_leaves d).
Proof.
  revert d'. induction d as [|[k [f|m]] d IH]; intros d' H;
    cbn [merge_flags] in H.
  - discriminate H.
  - destruct (String.eqb (JField.name f) nm).
    + injection H as <-. reflexivity.
    + destruct (merge_flags nm fl d) as [d0|]; [|discriminate H].
      injection H as <-. cbn [dict_leaves map]. rewrite (IH d0 eq_refl).
      reflexivity.
  - destruct (merge_flags nm fl d) as [d0|]; [|discriminate H].
    injection H as <-. cbn [dict_leaves]. apply IH. reflexivity.
Qed.

Lemma merge_flags_length (nm : string) (fl : Z) (d d' : dict) :
  merge_flags nm fl d = Some d' ->
  List.length (dict_leaves d') = List.length (dict_leaves d)
  /\ map fst d' = map fst d.
Proof.
  revert d'. induction d as [|[k [f|m]] d IH]; intros d' H;
    cbn [merge_flags] in H.
  - discriminate H.
  - destruct (String.eqb (JField.name f) nm).
    + injection H as <-. split; reflexivity.
    + destruct (merge_flags nm fl d) as [d0|]; [|discriminate H].
      injection H as <-. destruct (IH d0 eq_refl) as [H1 H2].
      cbn [dict_leaves List.length map fst]. rewrite H1, H2. split; reflexivity.
  - destruct (merge_flags nm fl d) as [d0|]; [|discriminate H].
    injection H as <-. destruct (IH d0 eq_refl) as [H1 H2].
    cbn [dict_leaves map fst]. rewrite H2. split; [exact H1 | reflexivity].
Qed.

(** Every entry after a merge comes from an entry before it, with the same
    name, key and path and at least the same flag bits. *)
Lemma merge_flags_origin (nm : string) (fl : Z) (d d' : dict) :
  merge_flags nm fl d = Some d' ->
  forall e', In e' (dict_leaves d') ->
  exists e, In e (dict_leaves d)
            /\ JField.name e' = JField.name e
            /\ JField.key e' = JField.key e
            /\ JField.path e' = JField.path e
            /\ bits_subset (JField.flags e) (JField.flags e').
Proof.
  assert (R : forall a, bits_subset a a) by (intros a n Hn; exact Hn).
  revert d'. induction d as [|[k [f|m]] d IH]; intros d' H e' Hin;
    cbn [merge_flags] in H.
  - discriminate H.
  - destruct (String.eqb (JField.name f) nm).
    + injection H as <-. cbn [dict_leaves] in *. destruct Hin as [<-|Hin].
      * exists f. split; [left; reflexivity|]. repeat split.
        intros n Hn. cbn. rewrite Z.lor_spec, Hn. reflexivity.
      * exists e'. split; [right; exact Hin|]. repeat split. apply R.
    + destruct (merge_flags nm fl d) as [d0|]; [|discriminate H].
      injection H as <-. cbn [dict_leaves] in *. destruct Hin as [<-|Hin].
      * exists f. split; [left; reflexivity|]. repeat split. apply R.
      * destruct (IH d0 eq_refl e' Hin) as (e & He & Hr).
        exists e. split; [right; exact He | exact Hr].
  - destruct (merge_flags nm fl d) as [d0|]; [|discriminate H].
    injection H as <-. cbn [dict_leaves] in *.
    destruct (IH d0 eq_refl e' Hin) as (e & He & Hr). exists e. auto.
Qed.

Lemma merge_flags_tree_leaves_keys (nm : string) (fl : Z) (d d' : dict) :
  merge_flags nm fl d = Some d' -> tree_keys d' = tree_keys d.
Proof.
  unfold tree_keys, tree_leaves. revert d'.
  induction d as [|[k [f|m]] d IH]; intros d' H; cbn [merge_flags] in H.
  - discriminate H.
  - destruct (String.eqb (JField.name f) nm).
    + injection H as <-. reflexivity.
    + destruct (merge_flags nm fl d) as [d0|]; [|discriminate H].
      injection H as <-. cbn [node_leaves flat_map] in *.
      rewrite !map_app, (IH d0 eq_refl). reflexivity.
  - destruct (merge_flags nm fl d) as [d0|]; [|discriminate H].
    injection H as <-. cbn [node_leaves flat_map] in *.
    rewrite !map_app, (IH d0 eq_refl). reflexivity.
Qed.

Lemma merge_flags_wf (nm : string) (fl : Z) (d d' : dict) :
  merge_flags nm fl d = Some d' -> wf_dict d -> wf_dict d'.
Proof.
  intros H W. inversion W as [|? U F]; subst. constructor.
  - unfold unique_names in *. rewrite (merge_flags_names _ _ _ _ H). exact U.
  - clear U W. revert d' H.
    induction d as [|[k [f|m]] d IH]; intros d' H; cbn [merge_flags] in H.
    + discriminate H.
    + inversion F; subst. destruct (String.eqb (JField.name f) nm).
      * injection H as <-. constructor; [constructor | assumption].
      * destruct (merge_flags nm fl d) as [d0|]; [|discriminate H].
        injection H as <-. constructor; [constructor | apply IH; auto].
    + inversion F; subst.
      destruct (merge_flags nm fl d) as [d0|]; [|discriminate H].
      injection H as <-. constructor; [assumption | apply IH; auto].
Qed.

End DictFacts.

Section DictSetFacts.

Lemma NoDup_app_disjoint (A : Type) (l1 l2 : list A) :
  NoDup (l1 ++ l2) -> forall a, In a l1 -> ~ In a l2.
Proof.
  induction l1 as [|x l1 IH]; intros H a Ha; [destruct Ha|].
  cbn in H. apply NoDup_cons_iff in H as [Hx H]. destruct Ha as [<-|Ha].
  - intros Hin. apply Hx. apply in_or_app. right. exact Hin.
  - apply IH; assumption.
Qed.

Lemma tree_keys_cons (k : string) (v : node) (d : dict) :
  tree_keys ((k, v) :: d)
  = (map JField.key (node_leaves v) ++ tree_keys d)%list.
Proof. unfold tree_keys, tree_leaves. cbn. apply map_app. Qed.

Lemma dict_set_leaves_in (k : string) (v : node) (d : dict) (e : JField.t) :
  In e (dict_leaves (dict_set k v d)) -> In e (dict_leaves d) \/ v = Leaf e.
Proof.
  induction d as [|[k' v'] d IH]; cbn [dict_set].
  - destruct v as [f|m]; cbn; [intros [<-|[]]; auto | intros []].
  - destruct (String.eqb k' k).
    + destruct v as [f|m], v' as [f'|m']; cbn; intuition (subst; auto).
    + destruct v' as [f'|m']; cbn [dict_leaves];
        [intros [<-|H] | intros H]; try (left; left; reflexivity);
        destruct (IH H) as [H'|H']; auto; left; right; exact H'.
Qed.

Lemma dict_set_leaf_in (k : string) (f : JField.t) (d : dict) :
  In f (dict_leaves (dict_set k (Leaf f) d)).
Proof.
  induction d as [|[k' v'] d IH]; cbn [dict_set].
  - left. reflexivity.
  - destruct (String.eqb k' k); [left; reflexivity|].
    destruct v'; cbn [dict_leaves]; [right|]; exact IH.
Qed.

(** Storing a new entry under a name that the dict does not hold yet. *)
Lemma dict_set_named_new (k : string) (f : JField.t) (d : dict) :
  named (JField.name f) d = [] ->
  named (JField.name f) (dict_set k (Leaf f) d) = [f].
Proof.
  unfold named. induction d as [|[k' v'] d IH]; cbn [dict_set]; intros H.
  - cbn. rewrite String.eqb_refl. reflexivity.
  - destruct (String.eqb k' k).
    + cbn [dict_leaves filter]. rewrite String.eqb_refl. f_equal.
      destruct v' as [f'|m']; cbn [dict_leaves filter] in H; [|exact H].
      destruct (String.eqb (JField.name f') (JField.name f));
        [discriminate H | exact H].
    + destruct v' as [f'|m']; cbn [dict_leaves filter] in *; [|exact (IH H)].
      destruct (String.eqb (JField.name f') (JField.name f));
        [discriminate H | exact (IH H)].
Qed.

Lemma dict_set_unique_leaf (k : string) (f : JField.t) (d : dict) :
  unique_names d ->
  ~ In (JField.name f) (map JField.name (dict_leaves d)) ->
  unique_names (dict_set k (Leaf f) d).
Proof.
  unfold unique_names.
  induction d as [|[k' v'] d IH]; cbn [dict_set]; intros U Hn.
  - cbn. constructor; [intros [] | constructor].
  - destruct (String.eqb k' k).
    + destruct v' as [f'|m']; cbn [dict_leaves map] in *.
      * apply NoDup_cons_iff in U as [_ U]. constructor; [|exact U].
        intros Hin. apply Hn. right. exact Hin.
      * constructor; assumption.
    + destruct v' as [f'|m']; cbn [dict_leaves map] in *.
      * apply NoDup_cons_iff in U as [Hf U]. constructor.
        -- intros Hin. apply in_map_iff in Hin as (e & He & Hin).
           apply dict_set_leaves_in in Hin as [Hin|Hin].
           ++ apply Hf. rewrite <- He. apply in_map. exact Hin.
           ++ injection Hin as <-. apply Hn. left. symmetry. exact He.
        -- apply IH; [exact U|]. intros Hin. apply Hn. right. exact Hin.
      * apply IH; assumption.
Qed.

Lemma dict_set_unique_sub (k : string) (m : dict) (d : dict) :
  unique_names d -> unique_names (dict_set k (Sub m) d).
Proof.
  unfold unique_names. induction d as [|[k' v'] d IH]; cbn [dict_set]; intros U.
  - constructor.
  - destruct (String.eqb k' k).
    + destruct v' as [f'|m']; cbn [dict_leaves map] in *; [|exact U].
      apply NoDup_cons_iff in U as [_ U]. exact U.
    + destruct v' as [f'|m']; cbn [dict_leaves map] in *; [|apply IH; exact U].
      apply NoDup_cons_iff in U as [Hf U]. constructor; [|apply IH; exact U].
      intros Hin. apply in_map_iff in Hin as (e & He & Hin).
      apply dict_set_leaves_in in Hin as [Hin|Hin]; [|discriminate Hin].
      apply Hf. rewrite <- He. apply in_map. exact Hin.
Qed.

Lemma dict_set_values_wf (k : string) (v : node) (d : dict) :
  wf_node v ->
  Forall (fun kv : string * node => wf_node (snd kv)) d ->
  Forall (fun kv : string * node => wf_node (snd kv)) (dict_set k v d).
Proof.
  intros Hv. induction d as [|[k' v'] d IH]; cbn [dict_set]; intros F.
  - constructor; [exact Hv | constructor].
  - inversion F; subst. destruct (String.eqb k' k); constructor; auto.
Qed.

Lemma dict_set_tree_keys_in (k : string) (v : node) (d : dict) (x : Z) :
  In x (tree_keys (dict_set k v d)) ->
  In x (tree_keys d) \/ In x (map JField.key (node_leaves v)).
Proof.
  induction d as [|[k' v'] d IH]; cbn [dict_set].
  - rewrite tree_keys_cons. intros H. apply in_app_or in H as [H|H]; auto.
  - destruct (String.eqb k' k); rewrite !tree_keys_cons; intros H;
      apply in_app_or in H as [H|H].
    + right. exact H.
    + left. apply in_or_app. right. exact H.
    + left. apply in_or_app. left. exact H.
    + destruct (IH H) as [H'|H']; [left | right; exact H'].
      apply in_or_app. right. exact H'.
Qed.

Lemma dict_set_tree_keys_NoDup (k : string) (v : node) (d : dict) :
  NoDup (tree_keys d) ->
  NoDup (map JField.key (node_leaves v)) ->
  (forall x, In x (map JField.key (node_leaves v)) -> ~ In x (tree_keys d)) ->
  NoDup (tree_keys (dict_set k v d)).
Proof.
  intros Hd Hv Hx. induction d as [|[k' v'] d IH]; cbn [dict_set].
  - rewrite tree_keys_cons. cbn. rewrite app_nil_r. exact Hv.
  - rewrite tree_keys_cons in Hd, Hx.
    assert (Hd' := NoDup_app_remove_l _ _ Hd).
    assert (Hv' := NoDup_app_remove_r _ _ Hd).
    assert (Hdis := NoDup_app_disjoint _ _ _ Hd).
    destruct (String.eqb k' k); rewrite tree_keys_cons.
    + apply NoDup_app; auto. intros a Ha Hin. apply (Hx a Ha).
      apply in_or_app. right. exact Hin.
    + apply NoDup_app; auto.
      * apply IH; auto. intros x Hxv Hin. apply (Hx x Hxv).
        apply in_or_app. right. exact Hin.
      * intros a Ha Hin. apply dict_set_tree_keys_in in Hin as [Hin|Hin].
        -- exact (Hdis a Ha Hin).
        -- apply (Hx a Hin). apply in_or_app. left. exact Ha.
Qed.

Lemma dict_set_fresh (k : string) (v : node) (d : dict) :
  ~ In k (map fst d) -> dict_set k v d = (d ++ [(k, v)])%list.
Proof.
  induction d as [|[k' v'] d IH]; intros H; [reflexivity|].
  cbn [dict_set]. destruct (String.eqb_spec k' k) as [E|E].
  - exfalso. apply H. left. exact E.
  - cbn. rewrite IH; [reflexivity|]. intros Hin. apply H. right. exact Hin.
Qed.

Lemma dict_leaves_app (d1 d2 : dict) :
  dict_leaves (d1 ++ d2)%list = (dict_leaves d1 ++ dict_leaves d2)%list.
Proof.
  induction d1 as [|[k [f|m]] d1 IH]; cbn; [reflexivity| |]; rewrite IH;
    reflexivity.
Qed.

End DictSetFacts.

(** ** One file *)

Section ProcessFile.

Import IconCollector.

Variables (self : t) (path : Path.t) (dest : dict).

Let nm := normalize_name (Path.stem path).
Let fl := get_flags (Path.name path).
Let full := source_relative (src self) (Path.joinpath (Path.parent path) nm).

Lemma process_file_skip :
  is_icon self path = false -> _process_file self path dest = dest.
Proof. unfold _process_file, is_icon. intros ->. reflexivity. Qed.

Lemma process_file_merge (dest' : dict) :
  is_icon self path = true ->
  merge_flags nm fl dest = Some dest' ->
  _process_file self path dest = dest'.
Proof.
  unfold _process_file, is_icon. intros -> H. fold nm fl. rewrite H.
  reflexivity.
Qed.

Lemma process_file_create :
  is_icon self path = true ->
  merge_flags nm fl dest = None ->
  _process_file self path dest
  = dict_set full (Leaf (JField.mk nm (key self) fl full)) dest.
Proof.
  unfold _process_file, is_icon. intros -> H. fold nm fl. rewrite H.
  reflexivity.
Qed.

Lemma creates_iff :
  creates self path dest = true
  <-> is_icon self path = true /\ named nm dest = [].
Proof.
  unfold creates. fold nm fl.
  rewrite andb_true_iff, <- (merge_flags_None nm fl dest).
  destruct (merge_flags nm fl dest); intuition (try discriminate; auto).
Qed.

Lemma process_file_created :
  creates self path dest = true ->
  _process_file self path dest
  = dict_set full (Leaf (JField.mk nm (key self) fl full)) dest
  /\ named nm (_process_file self path dest)
     = [JField.mk nm (key self) fl full].
Proof.
  intros H. apply creates_iff in H as [Hi Hn].
  assert (E := process_file_create Hi (proj2 (merge_flags_None nm fl dest) Hn)).
  split; [exact E|]. rewrite E.
  apply (dict_set_named_new full (JField.mk nm (key self) fl full)). exact Hn.
Qed.

Lemma process_file_merged (f : JField.t) (rest : list JField.t) :
  is_icon self path = true ->
  named nm dest = f :: rest ->
  merge_flags nm fl dest = Some (_process_file self path dest)
  /\ named nm (_process_file self path dest) = JField.or_flags f fl :: rest.
Proof.
  intros Hi Hn. destruct (merge_flags nm fl dest) as [d'|] eqn:M.
  - rewrite (process_file_merge _ Hi M). split; [reflexivity|].
    destruct (merge_flags_named _ _ _ _ M) as (f0 & rest0 & H1 & H2 & _).
    rewrite Hn in H1. injection H1 as <- <-. exact H2.
  - apply merge_flags_None in M. rewrite M in Hn. discriminate Hn.
Qed.

(** A file of another name leaves the entries of the name [other] as they
    are, unless it is stored under a dict key that is already in use. *)
Lemma process_file_frame (other : string) :
  nm <> other ->
  creates self path dest = false \/ ~ In full (map fst dest) ->
  named other (_process_file self path dest) = named other dest.
Proof.
  intros Hne Hc. destruct (is_icon self path) eqn:Hi;
    [|rewrite (process_file_skip Hi); reflexivity].
  destruct (merge_flags nm fl dest) as [d'|] eqn:M.
  - rewrite (process_file_merge _ Hi M).
    destruct (merge_flags_named _ _ _ _ M) as (_ & _ & _ & _ & H).
    apply H. congruence.
  - rewrite (process_file_create Hi M). destruct Hc as [Hc|Hc].
    + unfold creates in Hc. fold nm fl in Hc. rewrite Hi, M in Hc.
      discriminate Hc.
    + rewrite (dict_set_fresh _ _ _ Hc). unfold named.
      rewrite dict_leaves_app, filter_app. cbn [dict_leaves filter JField.name].
      destruct (String.eqb_spec nm other); [contradiction|].
      apply app_nil_r.
Qed.

End ProcessFile.

(** C3, as stated, fails: entries are stored under their source-relative
    path, and a file of another name that is stored under the same dict key
    takes the place of the entry.  In [res], with the marker ["icons"],
    [my_icons@2x.svg] (flag 1) and [my_icons_dark.svg] (flag 2) normalize to
    the same name; [all_icons.svg] comes between them and is stored under
    the key ["icons"] as they are.  The entry that is left has the flags 2,
    not 3, and the key of the third file, not that of the first. *)
Lemma merge_lost_under_shared_key :
  let self := IconCollector.__init__ None (Some "icons") None in
  let res := Path.of_string "res" in
  let first := Path.joinpath res "my_icons@2x.svg" in
  let second := Path.joinpath res "my_icons_dark.svg" in
  let after_first :=
    snd (IconCollector._process_dir self res [File "my_icons@2x.svg"] []) in
  let after_all :=
    snd (IconCollector._process_dir self res
           [File "my_icons@2x.svg"; File "all_icons.svg";
            File "my_icons_dark.svg"] []) in
  (is_icon self first = true /\ is_icon self second = true)
  /\ normalize_name (Path.stem first) = "my_icons"
  /\ normalize_name (Path.stem second) = "my_icons"
  /\ get_flags (Path.name first) = 1
  /\ get_flags (Path.name second) = 2
  /\ named "my_icons" after_first
     = [JField.mk "my_icons" (-243615037) 1 "icons"]
  /\ named "my_icons" after_all
     = [JField.mk "my_icons" (-243615039) 2 "icons"]
  /\ named "my_icons" after_all
     <> [JField.mk "my_icons" (-243615037) (Z.lor 1 2) "icons"].
Proof. repeat split. discriminate. Qed.

(** C3 (amended): two files that normalize to the same name, the first
    processed into a dict that holds no entry of that name yet, the second
    processed while the entry of the first is still the dict's entry of that
    name (as it is right after the first), leave exactly one entry of that
    name; its flags are the OR of the two derived flags, its key and its path
    are those given when the first file was stored. *)
Theorem merge_property (self1 self2 : IconCollector.t) (p1 p2 : Path.t)
                       (dest mid : dict) (nm : string) :
  is_icon self1 p1 = true ->
  is_icon self2 p2 = true ->
  normalize_name (Path.stem p1) = nm ->
  normalize_name (Path.stem p2) = nm ->
  named nm dest = [] ->
  named nm mid = named nm (IconCollector._process_file self1 p1 dest) ->
  named nm (IconCollector._process_file self1 p1 dest)
  = [JField.mk nm (IconCollector.key self1) (get_flags (Path.name p1))
       (IconCollector.source_relative (IconCollector.src self1)
          (Path.joinpath (Path.parent p1) nm))]
  /\ named nm (IconCollector._process_file self2 p2 mid)
     = [JField.mk nm (IconCollector.key self1)
          (Z.lor (get_flags (Path.name p1)) (get_flags (Path.name p2)))
          (IconCollector.source_relative (IconCollector.src self1)
             (Path.joinpath (Path.parent p1) nm))].
Proof.
  intros H1 H2 N1 N2 Hd Hm. subst nm.
  assert (C : creates self1 p1 dest = true)
    by (apply creates_iff; split; assumption).
  destruct (process_file_created _ _ _ C) as [_ E1].
  split; [exact E1|]. rewrite E1 in Hm. rewrite <- N2 in Hm at 1.
  destruct (process_file_merged self2 p2 _ _ _ H2 Hm) as [_ E2].
  rewrite N2 in E2. exact E2.
Qed.

Lemma merge_property_witness :
  let self1 := IconCollector.mk [] (-243615037) "icons" [".svg"; ".png"] in
  let self2 := IconCollector.mk [] (-243615039) "icons" [".svg"; ".png"] in
  let self3 := IconCollector.mk [] (-243615038) "icons" [".svg"; ".png"] in
  let p1 := Path.of_string "res/icons/foo-bar_dark.svg" in
  let p2 := Path.of_string "res/icons/foo-bar@2x.png" in
  let p3 := Path.of_string "res/icons/baz.svg" in
  let mid := IconCollector._process_file self3 p3
               (IconCollector._process_file self1 p1 []) in
  (is_icon self1 p1 = true /\ is_icon self2 p2 = true
   /\ normalize_name (Path.stem p1) = "foo_bar"
   /\ normalize_name (Path.stem p2) = "foo_bar"
   /\ named "foo_bar" [] = []
   /\ named "foo_bar" mid
      = named "foo_bar" (IconCollector._process_file self1 p1 []))
  /\ named "foo_bar" (IconCollector._process_file self1 p1 [])
     = [JField.mk "foo_bar" (-243615037) 2 "icons/foo_bar"]
  /\ named "foo_bar" (IconCollector._process_file self2 p2 mid)
     = [JField.mk "foo_bar" (-243615037) 3 "icons/foo_bar"].
Proof.
  split; [repeat split|].
  apply (merge_property
           (IconCollector.mk [] (-243615037) "icons" [".svg"; ".png"])
           (IconCollector.mk [] (-243615039) "icons" [".svg"; ".png"])
           (Path.of_string "res/icons/foo-bar_dark.svg")
           (Path.of_string "res/icons/foo-bar@2x.png") []
           (IconCollector._process_file
              (IconCollector.mk [] (-243615038) "icons" [".svg"; ".png"])
              (Path.of_string "res/icons/baz.svg")
              (IconCollector._process_file
                 (IconCollector.mk [] (-243615037) "icons" [".svg"; ".png"])
                 (Path.of_string "res/icons/foo-bar_dark.svg") []))
           "foo_bar");
    reflexivity.
Defined.

(** C6: when [_process_file] stores a new entry, its path is the computed
    path (the parent directory joined with the normalized name) from the
    first occurrence of the source marker on, and the whole computed path
    when the marker does not occur in it. *)
Theorem source_truncation (self : IconCollector.t) (path : Path.t)
                          (dest : dict) :
  creates self path dest = true ->
  let nm := normalize_name (Path.stem path) in
  let computed := Path.str (Path.joinpath (Path.parent path) nm) in
  let marker := IconCollector.src self in
  exists f,
    named nm (IconCollector._process_file self path dest) = [f]
    /\ (PyStr.contains marker computed = true ->
        exists pre,
          computed = pre ++ JField.path f
          /\ PyStr.starts_with marker (JField.path f) = true
          /\ forall j, (j < String.length pre)%nat ->
                       PyStr.starts_with marker (PyStr.drop j computed) = false)
    /\ (PyStr.contains marker computed = false -> JField.path f = computed).
Proof.
  intros C nm computed marker.
  destruct (process_file_created _ _ _ C) as [_ E]. fold nm in E.
  eexists. split; [exact E|]. cbn [JField.path].
  unfold IconCollector.source_relative, Path.as_posix, PyStr.contains.
  fold computed marker.
  destruct (PyStr.find marker computed) as [idx|] eqn:F.
  - split; [intros _ | discriminate].
    destruct (find_Some _ _ _ F) as (H1 & H2 & H3 & H4).
    exists (PyStr.take idx computed). rewrite H2. auto.
  - split; [discriminate | reflexivity].
Qed.

Lemma source_truncation_witness :
  let self := IconCollector.mk [] (-243615037) "icons" [".svg"; ".png"] in
  let path := Path.of_string "/a/b/icons/x/y.svg" in
  creates self path [] = true
  /\ exists f,
      named "y" (IconCollector._process_file self path []) = [f]
      /\ (PyStr.contains "icons" "/a/b/icons/x/y" = true ->
          exists pre,
            "/a/b/icons/x/y" = pre ++ JField.path f
            /\ PyStr.starts_with "icons" (JField.path f) = true
            /\ forall j, (j < String.length pre)%nat ->
                 PyStr.starts_with "icons" (PyStr.drop j "/a/b/icons/x/y")
                 = false)
      /\ (PyStr.contains "icons" "/a/b/icons/x/y" = false ->
          JField.path f = "/a/b/icons/x/y").
Proof.
  split; [reflexivity|].
  apply (source_truncation
           (IconCollector.mk [] (-243615037) "icons" [".svg"; ".png"])
           (Path.of_string "/a/b/icons/x/y.svg") []).
  reflexivity.
Defined.

(** The example of the specification. *)
Lemma truncation_example :
  IconCollector.source_relative "icons" (Path.of_string "/a/b/icons/x/y")
  = "icons/x/y"
  /\ IconCollector.source_relative "icons" (Path.of_string "/a/b/images/x/y")
     = "/a/b/images/x/y".
Proof. split; reflexivity. Qed.

(** C10, as stated, fails: a further file with an empty normalized name
    merges only while the entry named [""] is still in the dict.  In [icons],
    with the marker ["icons"], the entry of [_dark.svg] is stored under the
    key ["icons"]; the subdirectory [icons] is stored under the same key and
    takes its place; [@2x.png] then finds no entry named [""] and builds a
    new one, with its own flag and key, which takes the place of the
    subdirectory's dict. *)
Lemma empty_name_not_merged :
  let self := IconCollector.__init__ None (Some "icons") None in
  let icons := Path.of_string "icons" in
  let after_first :=
    snd (IconCollector._process_dir self icons [File "_dark.svg"] []) in
  let after_all :=
    snd (IconCollector._process_dir self icons
           [File "_dark.svg"; Dir "icons" [File "run.svg"]; File "@2x.png"]
           []) in
  (is_icon self (Path.joinpath icons "_dark.svg") = true
   /\ is_icon self (Path.joinpath icons "@2x.png") = true)
  /\ normalize_name (Path.stem (Path.joinpath icons "_dark.svg")) = ""
  /\ normalize_name (Path.stem (Path.joinpath icons "@2x.png")) = ""
  /\ after_first = [("icons", Leaf (JField.mk "" (-243615037) 2 "icons"))]
  /\ after_all = [("icons", Leaf (JField.mk "" (-243615039) 1 "icons"))]
  /\ named "" after_all
     <> [JField.mk "" (-243615037) (Z.lor 2 1) "icons"].
Proof. repeat split. discriminate. Qed.

(** C10 (amended): for a file with an accepted extension whose stem
    normalizes to the empty string, [_process_file] stores an entry named
    [""], with the current key, the flag of the file and the source-relative
    path of the directory, when the dict holds none; when the dict holds
    one, it ORs the flag of the file into the first of them and leaves the
    rest of the dict as it is, adding no entry; the
    declaration line of an entry named [""] has nothing between [Icon ] and
    [ = load]. *)
Theorem empty_name_entry {U : PyStr.CaseMap} (self : IconCollector.t)
                         (path : Path.t) (dest : dict) :
  is_icon self path = true ->
  normalize_name (Path.stem path) = "" ->
  let dest' := IconCollector._process_file self path dest in
  (named "" dest = [] ->
   named "" dest'
   = [JField.mk "" (IconCollector.key self) (get_flags (Path.name path))
                (IconCollector.source_relative
                   (IconCollector.src self)
                   (Path.joinpath (Path.parent path) ""))])
  /\ (forall f rest,
         named "" dest = f :: rest ->
         named "" dest'
         = JField.mk "" (JField.key f)
                     (Z.lor (JField.flags f) (get_flags (Path.name path)))
                     (JField.path f) :: rest
         /\ List.length (dict_leaves dest') = List.length (dict_leaves dest)
         /\ map fst dest' = map fst dest)
  /\ (forall f,
         In f (named "" dest') ->
         JField.__str__ f
         = "public static final Icon  = load(" ++ JField.dquote ++ "/"
           ++ JField.path f ++ JField.dquote ++ ", "
           ++ HexString.of_Z (JField.key f) ++ "L, "
           ++ HexString.of_Z (JField.flags f) ++ ");").
Proof.
  intros Hi Hn dest'. subst dest'. split; [|split].
  - intros Hd.
    assert (C : creates self path dest = true)
      by (apply creates_iff; rewrite Hn; split; assumption).
    destruct (process_file_created _ _ _ C) as [_ E]. rewrite Hn in E.
    exact E.
  - intros f rest H.
    assert (Nf : JField.name f = "").
    { assert (Hin : In f (named "" dest)) by (rewrite H; left; reflexivity).
      unfold named in Hin. apply filter_In in Hin as [_ Hin].
      apply String.eqb_eq. exact Hin. }
    rewrite <- Hn in H.
    destruct (process_file_merged self path dest _ _ Hi H) as [M E].
    rewrite Hn in E. split.
    + rewrite E. unfold JField.or_flags. rewrite Nf. reflexivity.
    + apply (merge_flags_length _ _ _ _ M).
  - intros f Hin. unfold named in Hin. apply filter_In in Hin as [_ Hin].
    apply String.eqb_eq in Hin. unfold JField.__str__. rewrite Hin.
    rewrite (PyStr.capitalize_ascii "" eq_refl). reflexivity.
Qed.

Lemma empty_name_entry_witness :
  let self := IconCollector.mk [] (-243615042) "icons" [".svg"; ".png"] in
  let path := Path.of_string "icons/toolbar/_dark.svg" in
  let dest := [("icons/toolbar",
                Leaf (JField.mk "" (-243615040) 1 "icons/toolbar"))] in
  (is_icon self path = true /\ normalize_name (Path.stem path) = "")
  /\ let dest' := IconCollector._process_file self path dest in
     (named "" dest = [] ->
      named "" dest'
      = [JField.mk "" (IconCollector.key self) (get_flags (Path.name path))
                   (IconCollector.source_relative
                      (IconCollector.src self)
                      (Path.joinpath (Path.parent path) ""))])
     /\ (forall f rest,
            named "" dest = f :: rest ->
            named "" dest'
            = JField.mk "" (JField.key f)
                        (Z.lor (JField.flags f) (get_flags (Path.name path)))
                        (JField.path f) :: rest
            /\ List.length (dict_leaves dest') = List.length (dict_leaves dest)
            /\ map fst dest' = map fst dest)
     /\ (forall f,
            In f (named "" dest') ->
            JField.__str__ (U := PyStr.ascii_case) f
            = "public static final Icon  = load(" ++ JField.dquote ++ "/"
              ++ JField.path f ++ JField.dquote ++ ", "
              ++ HexString.of_Z (JField.key f) ++ "L, "
              ++ HexString.of_Z (JField.flags f) ++ ");").
Proof.
  split; [split; reflexivity|].
  apply (empty_name_entry (U := PyStr.ascii_case)
           (IconCollector.mk [] (-243615042) "icons" [".svg"; ".png"])
           (Path.of_string "icons/toolbar/_dark.svg")
           [("icons/toolbar",
             Leaf (JField.mk "" (-243615040) 1 "icons/toolbar"))]);
    reflexivity.
Defined.

(** Stems made of the targets only normalize to the empty string. *)
Lemma empty_name_examples :
  normalize_name (Path.stem (Path.of_string "icons/_dark.svg")) = ""
  /\ normalize_name (Path.stem (Path.of_string "icons/@2x.png")) = ""
  /\ normalize_name (Path.stem (Path.of_string "icons/_stroke_dark@2x.svg"))
     = "".
Proof. repeat split. Qed.

(** ** The walk *)

Section Walk.

Import IconCollector.

(** Induction on a directory tree, with the hypothesis for every child of a
    directory. *)
Lemma fsentry_nested_ind (P : fsentry -> Prop) :
  (forall nm, P (File nm)) ->
  (forall nm children, Forall P children -> P (Dir nm children)) ->
  forall e, P e.
Proof.
  intros HF HD. fix IH 1. intros [nm|nm children]; [apply HF|]. apply HD.
  induction children as [|c l IHl]; constructor; [apply IH | exact IHl].
Qed.

Lemma process_child_File (path : Path.t) (nm : string) (self : t)
                         (imap : dict) :
  process_child path (File nm) (self, imap)
  = (set_key self (key self - 1),
     _process_file (set_key self (key self - 1)) (Path.joinpath path nm) imap).
Proof. reflexivity. Qed.

Lemma process_child_Dir (path : Path.t) (nm : string) (children : list fsentry)
                        (self : t) (imap : dict) :
  process_child path (Dir nm children) (self, imap)
  = (fst (_process_dir self (Path.joinpath path nm) children []),
     dict_set
       (Path.name (Path.joinpath path nm))
       (Sub (snd (_process_dir self (Path.joinpath path nm) children [])))
       imap).
Proof.
  change (process_child path (Dir nm children) (self, imap))
    with (let (self', sub_map) :=
            _process_dir self (Path.joinpath path nm) children [] in
          (self', dict_set (Path.name (Path.joinpath path nm))
                           (Sub sub_map) imap)).
  destruct (_process_dir self (Path.joinpath path nm) children []).
  reflexivity.
Qed.

Lemma process_dir_cons (self : t) (path : Path.t) (c : fsentry)
                       (l : list fsentry) (imap : dict) :
  _process_dir self path (c :: l) imap
  = _process_dir (fst (process_child path c (self, imap))) path l
                 (snd (process_child path c (self, imap))).
Proof.
  unfold _process_dir. cbn [fold_left].
  destruct (process_child path c (self, imap)); reflexivity.
Qed.

Lemma created_keys_Dir (path : Path.t) (nm : string) (children : list fsentry)
                       (st : t * dict) :
  created_keys path (Dir nm children) st
  = created_keys_in (Path.joinpath path nm) children (fst st, []).
Proof.
  cbn [created_keys]. generalize (fst st, @nil (string * node)).
  induction children as [|c l IH]; intros st'; [reflexivity|].
  cbn [created_keys_in]. rewrite <- IH. reflexivity.
Qed.

(** *** The key counter *)

Lemma process_child_key (child : fsentry) :
  forall path self imap,
    key (fst (process_child path child (self, imap)))
    = key self - Z.of_nat (count_files child).
Proof.
  induction child as [nm|nm children IH] using fsentry_nested_ind;
    intros path self imap.
  - rewrite process_child_File. cbn. lia.
  - rewrite process_child_Dir. cbn [fst count_files].
    generalize (Path.joinpath path nm) as p.
    generalize (@nil (string * node)) as d. revert self.
    induction children as [|c l IHl]; intros self d p.
    + cbn. lia.
    + inversion IH as [|? ? Hc Hl]; subst.
      rewrite process_dir_cons, (IHl Hl), Hc. cbn [fold_right]. lia.
Qed.

Lemma process_dir_key (children : list fsentry) :
  forall self path imap,
    key (fst (_process_dir self path children imap))
    = key self - Z.of_nat (count_files_in children).
Proof.
  induction children as [|c l IH]; intros self path imap.
  - cbn. lia.
  - rewrite process_dir_cons, IH, process_child_key.
    unfold count_files_in. cbn [fold_right]. lia.
Qed.

Lemma count_files_flat (names : list string) :
  count_files_in (map File names) = List.length names.
Proof.
  unfold count_files_in. induction names as [|n l IH]; cbn; [|rewrite IH];
    reflexivity.
Qed.

End Walk.

(** C5: processing a directory lowers the key counter by exactly the number
    of non-directory entries the directory holds, those of its
    subdirectories included, whatever their extensions and however many
    entries are built. *)
Theorem key_consumption (self : IconCollector.t) (path : Path.t)
                        (children : list fsentry) (imap : dict) :
  IconCollector.key (fst (IconCollector._process_dir self path children imap))
  = IconCollector.key self - Z.of_nat (count_files_in children)
  /\ IconCollector.key (IconCollector.process self path children)
     = IconCollector.key self - Z.of_nat (count_files_in children).
Proof.
  split; [apply process_dir_key|].
  unfold IconCollector.process.
  pose proof (process_dir_key children self path
                (IconCollector.icon_map self)) as H.
  destruct (IconCollector._process_dir self path children
              (IconCollector.icon_map self)) as [self' imap'].
  exact H.
Qed.

(** For a directory that holds files only this is the number of its
    entries. *)
Lemma flat_directory_keys (self : IconCollector.t) (path : Path.t)
                           (names : list string) (imap : dict) :
  IconCollector.key
    (fst (IconCollector._process_dir self path (map File names) imap))
  = IconCollector.key self - Z.of_nat (List.length names).
Proof. rewrite process_dir_key, count_files_flat. reflexivity. Qed.

(** ** Invariants of a directory node *)

Section NodeInvariants.

Import IconCollector.

Lemma unique_names_same (d : dict) (e e' : JField.t) :
  unique_names d ->
  In e (dict_leaves d) -> In e' (dict_leaves d) ->
  JField.name e' = JField.name e -> e' = e.
Proof.
  unfold unique_names.
  induction (dict_leaves d) as [|x l IH]; intros U He He' Hn.
  - destruct He.
  - cbn [map] in U. apply NoDup_cons_iff in U as [Hx U].
    destruct He as [<-|He], He' as [<-|He'].
    + reflexivity.
    + exfalso. apply Hx. rewrite <- Hn. apply in_map. exact He'.
    + exfalso. apply Hx. rewrite Hn. apply in_map. exact He.
    + apply IH; assumption.
Qed.

Lemma bits_subset_refl (a : Z) : bits_subset a a.
Proof. intros n Hn. exact Hn. Qed.

Lemma process_file_wf (self : t) (path : Path.t) (dest : dict) :
  wf_dict dest -> wf_dict (_process_file self path dest).
Proof.
  intros W. destruct (is_icon self path) eqn:Hi.
  - destruct (merge_flags (normalize_name (Path.stem path))
                          (get_flags (Path.name path)) dest) as [d'|] eqn:M.
    + rewrite (process_file_merge _ _ _ _ Hi M).
      apply (merge_flags_wf _ _ _ _ M W).
    + rewrite (process_file_create _ _ _ Hi M).
      inversion W as [|? U F]; subst. constructor.
      * apply dict_set_unique_leaf; [exact U|]. cbn [JField.name].
        apply named_nil_iff. apply merge_flags_None in M. exact M.
      * apply dict_set_values_wf; [constructor | exact F].
  - rewrite (process_file_skip _ _ _ Hi). exact W.
Qed.

(** One call of [_process_file]: an entry that was in the dict keeps its
    key and its path and loses no flag bit. *)
Lemma process_file_tracking (self : t) (path : Path.t) (dest : dict)
                            (e e' : JField.t) :
  unique_names dest ->
  In e (dict_leaves dest) ->
  In e' (dict_leaves (_process_file self path dest)) ->
  JField.name e' = JField.name e ->
  JField.key e' = JField.key e
  /\ JField.path e' = JField.path e
  /\ bits_subset (JField.flags e) (JField.flags e').
Proof.
  intros U He He' Hn. destruct (is_icon self path) eqn:Hi.
  - destruct (merge_flags (normalize_name (Path.stem path))
                          (get_flags (Path.name path)) dest) as [d'|] eqn:M.
    + rewrite (process_file_merge _ _ _ _ Hi M) in He'.
      destruct (merge_flags_origin _ _ _ _ M e' He')
        as (e0 & H0 & Hn0 & Hk & Hp & Hb).
      assert (e0 = e) as -> by (apply (unique_names_same dest); congruence).
      auto.
    + rewrite (process_file_create _ _ _ Hi M) in He'.
      apply dict_set_leaves_in in He' as [He'|He'].
      * rewrite (unique_names_same dest e e' U He He' Hn).
        repeat split. apply bits_subset_refl.
      * exfalso. injection He' as He'. apply merge_flags_None in M.
        apply named_nil_iff in M. apply M. rewrite <- He' in Hn.
        cbn [JField.name] in Hn. rewrite Hn. apply in_map. exact He.
  - rewrite (process_file_skip _ _ _ Hi) in He'.
    rewrite (unique_names_same dest e e' U He He' Hn).
    repeat split. apply bits_subset_refl.
Qed.

Lemma process_child_wf (child : fsentry) :
  forall path self imap,
    wf_dict imap -> wf_dict (snd (process_child path child (self, imap))).
Proof.
  induction child as [nm|nm children IH] using fsentry_nested_ind;
    intros path self imap W.
  - rewrite process_child_File. cbn [snd]. apply process_file_wf. exact W.
  - rewrite process_child_Dir. cbn [snd].
    assert (S : wf_dict (snd (_process_dir self (Path.joinpath path nm)
                                           children []))).
    { assert (W0 : wf_dict []) by (repeat constructor).
      revert W0. generalize (Path.joinpath path nm) as p.
      generalize (@nil (string * node)) as d. generalize self as s.
      induction children as [|c l IHl]; intros s d p W0; [exact W0|].
      inversion IH as [|? ? Hc Hl]; subst. rewrite process_dir_cons.
      apply (IHl Hl). apply Hc. exact W0. }
    inversion W as [|? U F]; subst. constructor.
    + apply dict_set_unique_sub. exact U.
    + apply dict_set_values_wf; assumption.
Qed.

Lemma process_dir_wf (children : list fsentry) :
  forall self path imap,
    wf_dict imap -> wf_dict (snd (_process_dir self path children imap)).
Proof.
  induction children as [|c l IH]; intros self path imap W; [exact W|].
  rewrite process_dir_cons. apply IH. apply process_child_wf. exact W.
Qed.

(** A whole run on a new collector builds a tree in which no directory node
    holds two entries of one name. *)
Lemma process_wf (k : option Z) (s : option string) (e : option (list string))
                 (directory : Path.t) (children : list fsentry) :
  wf_dict (icon_map (process (__init__ k s e) directory children)).
Proof.
  unfold process.
  pose proof (process_dir_wf children (__init__ k s e) directory
                (icon_map (__init__ k s e))) as H.
  destruct (_process_dir (__init__ k s e) directory children
              (icon_map (__init__ k s e))) as [self' imap'].
  apply H. repeat constructor.
Qed.

End NodeInvariants.

(** C7: every iteration of the loop of [_process_dir], on a file or on a
    subdirectory, keeps the invariants of the dict it fills: no dict of the
    tree holds two entries of one name; an entry that was there keeps its key
    and its path, and every flag bit it had is still set. *)
Theorem directory_node_invariants (path : Path.t) (child : fsentry)
                                  (self : IconCollector.t) (imap : dict) :
  wf_dict imap ->
  let imap' := snd (IconCollector.process_child path child (self, imap)) in
  wf_dict imap'
  /\ forall e e',
       In e (dict_leaves imap) -> In e' (dict_leaves imap') ->
       JField.name e' = JField.name e ->
       JField.key e' = JField.key e
       /\ JField.path e' = JField.path e
       /\ bits_subset (JField.flags e) (JField.flags e').
Proof.
  intros W imap'. split; [apply process_child_wf; exact W|].
  assert (U : unique_names imap) by (inversion W; assumption).
  intros e e' He He' Hn. subst imap'. destruct child as [nm|nm children].
  - rewrite process_child_File in He'. cbn [snd] in He'.
    apply (process_file_tracking _ _ _ e e' U He He' Hn).
  - rewrite process_child_Dir in He'. cbn [snd] in He'.
    apply dict_set_leaves_in in He' as [He'|He']; [|discriminate He'].
    rewrite (unique_names_same imap e e' U He He' Hn).
    repeat split. apply bits_subset_refl.
Qed.

Lemma directory_node_invariants_witness :
  let self := IconCollector.mk [] (-243615037) "icons" [".svg"; ".png"] in
  let imap :=
    [("icons/foo", Leaf (JField.mk "foo" (-243615037) 0 "icons/foo"))] in
  let imap' := snd (IconCollector.process_child (Path.of_string "icons")
                      (File "foo_dark.svg") (self, imap)) in
  wf_dict imap
  /\ wf_dict imap'
  /\ forall e e',
       In e (dict_leaves imap) -> In e' (dict_leaves imap') ->
       JField.name e' = JField.name e ->
       JField.key e' = JField.key e
       /\ JField.path e' = JField.path e
       /\ bits_subset (JField.flags e) (JField.flags e').
Proof.
  assert (W : wf_dict [("icons/foo",
                        Leaf (JField.mk "foo" (-243615037) 0 "icons/foo"))]).
  { constructor.
    - unfold unique_names. cbn. constructor; [intros [] | constructor].
    - repeat constructor. }
  split; [exact W|].
  apply (directory_node_invariants (Path.of_string "icons")
           (File "foo_dark.svg")
           (IconCollector.mk [] (-243615037) "icons" [".svg"; ".png"])
           [("icons/foo", Leaf (JField.mk "foo" (-243615037) 0 "icons/foo"))]).
  exact W.
Defined.

(** ** Keys *)

Section Keys.

Import IconCollector.

Lemma StronglySorted_app (A : Type) (R : A -> A -> Prop) (l1 l2 : list A) :
  StronglySorted R l1 -> StronglySorted R l2 ->
  (forall x y, In x l1 -> In y l2 -> R x y) ->
  StronglySorted R (l1 ++ l2).
Proof.
  intros S1 S2 H. induction l1 as [|a l1 IH]; [exact S2|].
  inversion S1 as [|? ? S1' F]; subst. cbn. constructor.
  - apply IH; [exact S1'|]. intros x y Hx Hy.
    apply H; [right; exact Hx | exact Hy].
  - apply Forall_app. split; [exact F|].
    apply Forall_forall. intros y Hy. apply H; [left; reflexivity | exact Hy].
Qed.

Lemma keys_ok_refl (self : t) (imap : dict) : keys_ok self imap (self, imap) [].
Proof.
  unfold keys_ok. cbn [fst snd]. split; [lia|]. split; [constructor|].
  split; [intros x []|]. split; [intros x Hx; left; exact Hx|].
  intros N _. exact N.
Qed.

Lemma keys_ok_trans (self : t) (imap : dict) (st1 st2 : t * dict)
                    (log1 log2 : list Z) :
  keys_ok self imap st1 log1 ->
  keys_ok (fst st1) (snd st1) st2 log2 ->
  keys_ok self imap st2 (log1 ++ log2).
Proof.
  intros (A1 & A2 & A3 & A4 & A5) (B1 & B2 & B3 & B4 & B5).
  split; [lia|]. split; [|split; [|split]].
  - apply StronglySorted_app; auto. intros x y Hx Hy.
    specialize (A3 x Hx). specialize (B3 y Hy). lia.
  - intros x Hx. apply in_app_or in Hx as [Hx|Hx].
    + specialize (A3 x Hx). lia.
    + specialize (B3 x Hx). lia.
  - intros x Hx. destruct (B4 x Hx) as [H|H].
    + destruct (A4 x H) as [H'|H']; [left; exact H' | right].
      apply in_or_app. left. exact H'.
    + right. apply in_or_app. right. exact H.
  - intros N L. apply B5; [apply A5; assumption|].
    intros x Hx. destruct (A4 x Hx) as [H|H].
    + specialize (L x H). lia.
    + specialize (A3 x H). lia.
Qed.

Lemma keys_ok_file (self : t) (path : Path.t) (nm : string) (imap : dict) :
  keys_ok self imap (process_child path (File nm) (self, imap))
          (created_keys path (File nm) (self, imap)).
Proof.
  rewrite process_child_File. cbn [created_keys fst snd].
  set (self' := set_key self (key self - 1)).
  set (p := Path.joinpath path nm).
  assert (K : key self' = key self - 1) by reflexivity.
  unfold keys_ok. cbn [fst snd]. split; [lia|].
  destruct (creates self' p imap) eqn:C.
  - destruct (process_file_created _ _ _ C) as [E _]. rewrite E.
    split; [repeat constructor|]. split; [|split].
    + intros x [<-|[]]. lia.
    + intros x Hx. apply dict_set_tree_keys_in in Hx as [Hx|Hx];
        [left | right]; exact Hx.
    + intros N L. apply dict_set_tree_keys_NoDup; [exact N | |].
      * cbn. constructor; [intros [] | constructor].
      * intros x [<-|[]] Hin. cbn [JField.key] in Hin.
        specialize (L _ Hin). lia.
  - assert (T : tree_keys (_process_file self' p imap) = tree_keys imap).
    { destruct (is_icon self' p) eqn:Hi.
      - destruct (merge_flags (normalize_name (Path.stem p))
                              (get_flags (Path.name p)) imap) as [d'|] eqn:M.
        + rewrite (process_file_merge _ _ _ _ Hi M).
          apply (merge_flags_tree_leaves_keys _ _ _ _ M).
        + exfalso. unfold creates in C. rewrite Hi, M in C. discriminate C.
      - rewrite (process_file_skip _ _ _ Hi). reflexivity. }
    rewrite T. split; [constructor|]. split; [intros x []|]. split; auto.
Qed.

Lemma keys_ok_children (path : Path.t) (children : list fsentry) :
  Forall (fun c => forall path self imap,
              keys_ok self imap (process_child path c (self, imap))
                      (created_keys path c (self, imap))) children ->
  forall self imap,
    keys_ok self imap (_process_dir self path children imap)
            (created_keys_in path children (self, imap)).
Proof.
  induction children as [|c l IH]; intros F self imap.
  - apply keys_ok_refl.
  - inversion F as [|? ? Hc Hl]; subst.
    rewrite process_dir_cons. cbn [created_keys_in].
    apply (keys_ok_trans _ _ (process_child path c (self, imap))).
    + apply Hc.
    + specialize (IH Hl (fst (process_child path c (self, imap)))
                     (snd (process_child path c (self, imap)))).
      destruct (process_child path c (self, imap)); exact IH.
Qed.

Lemma keys_ok_child (child : fsentry) :
  forall path self imap,
    keys_ok self imap (process_child path child (self, imap))
            (created_keys path child (self, imap)).
Proof.
  induction child as [nm|nm children IH] using fsentry_nested_ind;
    intros path self imap.
  - apply keys_ok_file.
  - rewrite process_child_Dir, created_keys_Dir. cbn [fst].
    pose proof (keys_ok_children (Path.joinpath path nm) children IH self [])
      as (A1 & A2 & A3 & A4 & A5).
    set (r := _process_dir self (Path.joinpath path nm) children []) in *.
    set (log := created_keys_in (Path.joinpath path nm) children (self, []))
      in *.
    assert (S : forall x, In x (map JField.key (node_leaves (Sub (snd r)))) ->
                          In x log).
    { intros x Hx. destruct (A4 x Hx) as [[]|H]. exact H. }
    unfold keys_ok. cbn [fst snd]. repeat split; auto.
    + apply A3. exact H.
    + apply A3. exact H.
    + intros x Hx. apply dict_set_tree_keys_in in Hx as [Hx|Hx]; auto.
    + intros N L. apply dict_set_tree_keys_NoDup; [exact N | |].
      * apply A5; [constructor | intros x []].
      * intros x Hx Hin. specialize (A3 x (S x Hx)). specialize (L x Hin). lia.
Qed.

Lemma keys_ok_dir (self : t) (path : Path.t) (children : list fsentry)
                  (imap : dict) :
  keys_ok self imap (_process_dir self path children imap)
          (created_keys_in path children (self, imap)).
Proof.
  apply keys_ok_children. apply Forall_forall. intros c _. apply keys_ok_child.
Qed.

End Keys.

(** C8: over a run of a new collector, the keys given to the entries that
    are built decrease strictly in the order in which the entries are built;
    every entry of the resulting tree carries one of these keys, and no two
    entries of the tree carry the same key. *)
Theorem key_uniqueness (k : option Z) (s : option string)
                       (e : option (list string))
                       (directory : Path.t) (children : list fsentry) :
  let self := IconCollector.__init__ k s e in
  let log := created_keys_in directory children
               (self, IconCollector.icon_map self) in
  let tree := IconCollector.icon_map
                (IconCollector.process self directory children) in
  StronglySorted Z.gt log
  /\ (forall f, In f (tree_leaves tree) -> In (JField.key f) log)
  /\ NoDup (tree_keys tree).
Proof.
  intros self log tree.
  pose proof (keys_ok_dir self directory children (IconCollector.icon_map self))
    as (A1 & A2 & A3 & A4 & A5).
  fold log in A2, A3, A4.
  assert (T : tree = snd (IconCollector._process_dir self directory children
                            (IconCollector.icon_map self))).
  { unfold tree, IconCollector.process.
    destruct (IconCollector._process_dir self directory children
                (IconCollector.icon_map self)); reflexivity. }
  rewrite T. repeat split.
  - exact A2.
  - intros f Hf. destruct (A4 (JField.key f)) as [[]|H]; [|exact H].
    unfold tree_keys. apply in_map. exact Hf.
  - apply A5; [constructor | intros x []].
Qed.

(** ** A directory of files with an empty normalized name *)

Section EmptyNames.

Import IconCollector.

Variable path : Path.t.

Let empty_icon (self : t) (nm : string) : Prop :=
  is_icon self (Path.joinpath path nm) = true
  /\ normalize_name (Path.stem (Path.joinpath path nm)) = "".

Let flags_of (nm : string) : Z := get_flags (Path.name (Path.joinpath path nm)).

Lemma empty_name_files_merge (names : list string) :
  forall self imap f,
    Forall (empty_icon self) names ->
    named "" imap = [f] ->
    named "" (snd (_process_dir self path (map File names) imap))
    = [JField.mk (JField.name f) (JField.key f)
                 (fold_left Z.lor (map flags_of names) (JField.flags f))
                 (JField.path f)].
Proof.
  induction names as [|nm l IH]; intros self imap f F Hn.
  - unfold _process_dir. cbn [map fold_left snd]. rewrite Hn.
    destruct f; reflexivity.
  - inversion F as [|? ? [Hi He] Hl]; subst.
    cbn [map]. rewrite process_dir_cons, process_child_File. cbn [fst snd].
    set (self' := set_key self (key self - 1)).
    assert (Hn' : named (normalize_name (Path.stem (Path.joinpath path nm)))
                        imap = [f]) by (rewrite He; exact Hn).
    destruct (process_file_merged self' (Path.joinpath path nm) imap f []
                Hi Hn') as [_ E].
    rewrite He in E. rewrite (IH self' _ _ Hl E). reflexivity.
Qed.

(** The first such file builds the entry, with the key that the counter has
    for it; all the others are merged into it. *)
Lemma empty_name_directory (self : t) (imap : dict) (nm : string)
                           (names : list string) :
  Forall (empty_icon self) (nm :: names) ->
  named "" imap = [] ->
  exists p,
    named "" (snd (_process_dir self path (map File (nm :: names)) imap))
    = [JField.mk "" (key self - 1)
                 (fold_left Z.lor (map flags_of names) (flags_of nm)) p].
Proof.
  intros F Hn. inversion F as [|? ? [Hi He] Hl]; subst.
  cbn [map]. rewrite process_dir_cons, process_child_File. cbn [fst snd].
  set (self' := set_key self (key self - 1)).
  assert (C : creates self' (Path.joinpath path nm) imap = true)
    by (apply creates_iff; rewrite He; split; assumption).
  destruct (process_file_created _ _ _ C) as [_ E]. rewrite He in E.
  eexists. rewrite (empty_name_files_merge names self' _ _ Hl E). reflexivity.
Qed.

End EmptyNames.

(** ** The scenarios of the specification *)

Example end_to_end_tree :
  IconCollector.icon_map
    (IconCollector.process
       (IconCollector.__init__ None (Some "icons") None)
       (Path.of_string "icons")
       [File "foo.svg"; File "foo_dark.svg"; File "bar@2x.png";
        Dir "toolbar" [File "run.svg"]])
  = [("icons/foo", Leaf (JField.mk "foo" (-243615037) 2 "icons/foo"));
     ("icons/bar", Leaf (JField.mk "bar" (-243615039) 1 "icons/bar"));
     ("toolbar",
      Sub [("icons/toolbar/run",
            Leaf (JField.mk "run" (-243615040) 0 "icons/toolbar/run"))])].
Proof. reflexivity. Qed.

Example end_to_end_body :
  write_values (U := PyStr.ascii_case)
    [("icons/foo", Leaf (JField.mk "foo" (-243615037) 2 "icons/foo"));
     ("toolbar",
      Sub [("icons/toolbar/run",
            Leaf (JField.mk "run" (-243615040) 0 "icons/toolbar/run"))])]
  = "public static final Icon Foo = load(" ++ JField.dquote ++ "/icons/foo"
    ++ JField.dquote ++ ", -0xe85453dL, 0x2);" ++ nl
    ++ "public static final class Toolbar {" ++ nl
    ++ "public static final Icon Run = load(" ++ JField.dquote
    ++ "/icons/toolbar/run" ++ JField.dquote ++ ", -0xe854540L, 0x0);" ++ nl
    ++ "}" ++ nl ++ nl.
Proof. reflexivity. Qed.

(** Entries are stored under their source-relative path.  When the marker
    first occurs inside the names, two names share a dict key and the later
    entry takes the place of the earlier one. *)
Example shared_dict_key :
  IconCollector.icon_map
    (IconCollector.process
       (IconCollector.__init__ None (Some "icons") None)
       (Path.of_string "res")
       [File "my_icons@2x.svg"; File "all_icons.svg"; File "my_icons_dark.svg"])
  = [("icons", Leaf (JField.mk "my_icons" (-243615039) 2 "icons"))].
Proof. reflexivity. Qed.

(** * Further properties *)

(** ** Naming rules *)

Section MoreStringFacts.

Import PyStr.

Lemma starts_with_nil (sub : string) : starts_with sub "" = true -> sub = "".
Proof. destruct sub; [reflexivity | discriminate]. Qed.

Lemma contains_here (sub s : string) :
  starts_with sub s = true -> contains sub s = true.
Proof.
  intros H. unfold contains. destruct s; cbn [find]; rewrite H; reflexivity.
Qed.

Lemma contains_drop (sub : string) (n : nat) :
  forall s, contains sub (drop n s) = true -> contains sub s = true.
Proof.
  induction n as [|n IH]; intros s H; [exact H|].
  destruct s as [|c s]; [exact H|].
  cbn [drop] in H. rewrite contains_cons, (IH s H). apply orb_true_r.
Qed.

Lemma starts_with_app_drop (a b : string) :
  forall s, starts_with (a ++ b) s = true ->
            starts_with b (drop (length a) s) = true.
Proof.
  induction a as [|x a IH]; intros s H; [exact H|].
  destruct s as [|c s]; [discriminate H|].
  cbn [append starts_with] in H. apply andb_prop in H as [_ H].
  cbn [String.length drop]. apply IH. exact H.
Qed.

(** Where [a ++ b] occurs, [b] occurs. *)
Lemma contains_suffix (a b s : string) :
  contains (a ++ b) s = true -> contains b s = true.
Proof.
  unfold contains at 1. destruct (find (a ++ b) s) as [i|] eqn:F;
    [intros _ | discriminate].
  destruct (find_Some _ _ _ F) as (_ & _ & H & _).
  apply starts_with_app_drop in H.
  apply (contains_drop b i). apply (contains_drop b (length a)).
  apply contains_here. exact H.
Qed.

Lemma replace_from_skip (old new x s : string) :
  replace_from old new (x ++ s) (length x) = replace_from old new s 0.
Proof.
  induction x as [|c x IH]; [reflexivity|]. cbn. exact IH.
Qed.

Lemma length_replace_eq_absent (old s : string) :
  old <> "" -> length (replace old "" s) = length s ->
  contains old s = false.
Proof.
  intros Hne H. destruct (contains old s) eqn:E; [|reflexivity].
  apply (length_replace_lt old s Hne) in E. lia.
Qed.

End MoreStringFacts.

(** X1: the table of [get_flags] in terms of the three variant marks: 1 with
    ["@2x."]; otherwise 4 or 2 with ["_dark"] (4 when it comes as
    ["@2x_dark"]); 8 with ["_stroke"] and neither of the first two; 0 exactly
    when none of the three occurs. *)
Theorem get_flags_table (name : string) :
  (get_flags name = 1 <-> PyStr.contains "@2x." name = true)
  /\ (get_flags name = 4 <->
      PyStr.contains "@2x." name = false
      /\ PyStr.contains "@2x_dark" name = true)
  /\ (get_flags name = 2 <->
      PyStr.contains "@2x." name = false
      /\ PyStr.contains "@2x_dark" name = false
      /\ PyStr.contains "_dark" name = true)
  /\ (get_flags name = 8 <->
      PyStr.contains "@2x." name = false
      /\ PyStr.contains "_dark" name = false
      /\ PyStr.contains "_stroke" name = true)
  /\ (get_flags name = 0 <->
      PyStr.contains "@2x." name = false
      /\ PyStr.contains "_dark" name = false
      /\ PyStr.contains "_stroke" name = false).
Proof.
  pose proof (contains_suffix "@2x" "_dark" name) as D. unfold get_flags.
  destruct (PyStr.contains "@2x." name);
    [repeat split; intros; try discriminate; intuition discriminate|].
  destruct (PyStr.contains "@2x_dark" name) eqn:E.
  - change ("@2x" ++ "_dark") with "@2x_dark" in D. rewrite E in D.
    rewrite (D eq_refl).
    repeat split; intros; try discriminate; intuition discriminate.
  - destruct (PyStr.contains "_dark" name);
      [repeat split; intros; try discriminate; intuition discriminate|].
    destruct (PyStr.contains "_stroke" name);
      repeat split; intros; try discriminate; intuition discriminate.
Qed.

(** X2: a normalized name never holds a hyphen. *)
Theorem normalized_without_hyphen (s : string) :
  PyStr.contains "-" (normalize_name s) = false.
Proof.
  unfold normalize_name, targets. cbn [fold_left].
  generalize (PyStr.replace "@2x" ""
                (PyStr.replace "_stroke" "" (PyStr.replace "_dark" "" s))).
  intros r. apply replace_hyphen_clean.
Qed.

(** X3: [normalize_name] never lengthens a name, and it keeps the length
    exactly when the name holds none of ["_dark"], ["_stroke"], ["@2x"]. *)
Theorem normalize_name_length (s : string) :
  (String.length (normalize_name s) <= String.length s)%nat
  /\ (String.length (normalize_name s) = String.length s
      <-> target_free s = true).
Proof.
  unfold normalize_name, target_free, targets. cbn [fold_left forallb].
  rewrite length_replace_hyphen.
  remember (PyStr.replace "_dark" "" s) as t1 eqn:D1.
  remember (PyStr.replace "_stroke" "" t1) as t2 eqn:D2.
  remember (PyStr.replace "@2x" "" t2) as t3 eqn:D3.
  assert (L1 : (String.length t1 <= String.length s)%nat)
    by (subst t1; apply length_replace_from_le).
  assert (L2 : (String.length t2 <= String.length t1)%nat)
    by (subst t2; apply length_replace_from_le).
  assert (L3 : (String.length t3 <= String.length t2)%nat)
    by (subst t3; apply length_replace_from_le).
  split; [lia|]. split.
  - intros H.
    assert (E1 : PyStr.contains "_dark" s = false).
    { apply length_replace_eq_absent; [discriminate|]. rewrite <- D1. lia. }
    rewrite (replace_absent _ _ _ E1) in D1. subst t1.
    assert (E2 : PyStr.contains "_stroke" s = false).
    { apply length_replace_eq_absent; [discriminate|]. rewrite <- D2. lia. }
    rewrite (replace_absent _ _ _ E2) in D2. subst t2.
    assert (E3 : PyStr.contains "@2x" s = false).
    { apply length_replace_eq_absent; [discriminate|]. rewrite <- D3. lia. }
    rewrite E1, E2, E3. reflexivity.
  - intros H. repeat (apply andb_prop in H as [?%negb_true_iff H]).
    subst t3 t2 t1.
    rewrite (replace_absent "_dark") by assumption.
    rewrite (replace_absent "_stroke") by assumption.
    rewrite (replace_absent "@2x") by assumption. reflexivity.
Qed.

(** X4: [normalize_name] returns a name unchanged exactly when the name holds
    none of ["_dark"], ["_stroke"], ["@2x"] and no hyphen. *)
Theorem normalize_name_fixed_points (t : string) :
  normalize_name t = t
  <-> PyStr.contains "_dark" t = false
      /\ PyStr.contains "_stroke" t = false
      /\ PyStr.contains "@2x" t = false
      /\ PyStr.contains "-" t = false.
Proof.
  split.
  - intros H. pose proof (normalize_name_fixed_inv t H) as T.
    unfold target_free, targets in T. cbn [forallb] in T.
    repeat (apply andb_prop in T as [?%negb_true_iff T]).
    repeat split; try assumption. rewrite <- H. apply replace_hyphen_clean.
  - intros (H1 & H2 & H3 & H4). apply normalize_name_fixed; [|exact H4].
    unfold target_free, targets. cbn [forallb]. rewrite H1, H2, H3.
    reflexivity.
Qed.

Section TargetStems.

Import PyStr.

Ltac same_target tail :=
  match goal with
  | |- replace_from ?o "" (concat_targets (?o :: ?l)) 0
       = concat_targets (filter ?f (?o :: ?l)) =>
      change (replace_from o "" (tail ++ concat_targets l) (length tail)
              = concat_targets (filter f l));
      rewrite replace_from_skip; assumption
  end.

Ltac other_target :=
  match goal with
  | |- replace_from ?o "" (concat_targets (?t :: ?l)) 0
       = concat_targets (filter ?f (?t :: ?l)) =>
      change (t ++ replace_from o "" (concat_targets l) 0
              = t ++ concat_targets (filter f l));
      f_equal; assumption
  end.

(** Removing one target from a string made of targets removes exactly the
    components that are this target. *)
Lemma replace_in_targets (old : string) (l : list string) :
  In old targets ->
  Forall (fun t => In t targets) l ->
  replace old "" (concat_targets l)
  = concat_targets (filter (fun t => negb (String.eqb t old)) l).
Proof.
  intros Ho F. unfold replace.
  destruct Ho as [<-|[<-|[<-|[]]]];
    (induction F as [|t l Ht F IH]; [reflexivity|]);
    destruct Ht as [<-|[<-|[<-|[]]]];
    first [ same_target "dark" | same_target "stroke" | same_target "2x"
          | other_target ].
Qed.

Lemma filter_targets_nil (l : list string) :
  Forall (fun t => In t targets) l ->
  filter (fun t => negb (String.eqb t "@2x"))
    (filter (fun t => negb (String.eqb t "_stroke"))
       (filter (fun t => negb (String.eqb t "_dark")) l)) = [].
Proof.
  induction 1 as [|t l Ht F IH]; [reflexivity|].
  destruct Ht as [<-|[<-|[<-|[]]]]; cbn; exact IH.
Qed.

Lemma filter_keeps_targets (f : string -> bool) (l : list string) :
  Forall (fun t => In t targets) l ->
  Forall (fun t => In t targets) (filter f l).
Proof.
  intros F. apply Forall_forall. intros t Ht. apply filter_In in Ht as [Ht _].
  revert t Ht. apply Forall_forall. exact F.
Qed.

End TargetStems.

(** X5: a stem written with ["_dark"], ["_stroke"] and ["@2x"] only, in any
    number and order, normalizes to the empty string. *)
Theorem targets_only_normalize_to_empty (l : list string) :
  Forall (fun t => In t targets) l ->
  normalize_name (concat_targets l) = "".
Proof.
  intros F. unfold normalize_name. unfold targets at 1. cbn [fold_left].
  rewrite (replace_in_targets "_dark") by (cbn; auto).
  rewrite (replace_in_targets "_stroke")
    by (cbn; auto using filter_keeps_targets).
  rewrite (replace_in_targets "@2x")
    by (cbn; auto using filter_keeps_targets).
  rewrite (filter_targets_nil l F). reflexivity.
Qed.

Lemma targets_only_normalize_to_empty_witness :
  Forall (fun t => In t targets) ["@2x"; "_dark"; "_stroke"; "_dark"]
  /\ normalize_name (concat_targets ["@2x"; "_dark"; "_stroke"; "_dark"]) = "".
Proof.
  split; [repeat (apply Forall_cons; [cbn; tauto|]); apply Forall_nil|].
  apply (targets_only_normalize_to_empty ["@2x"; "_dark"; "_stroke"; "_dark"]).
  repeat (apply Forall_cons; [cbn; tauto|]); apply Forall_nil.
Defined.

(** ** Invariants of every dict of the tree *)

Section EveryDict.

Import IconCollector.

Lemma dict_leaves_items (d : dict) : dict_leaves d = map snd (dict_items d).
Proof.
  induction d as [|[k [f|m]] d IH]; cbn; [reflexivity| |]; rewrite IH;
    reflexivity.
Qed.

Lemma dict_items_keys (d : dict) (k : string) (f : JField.t) :
  In (k, f) (dict_items d) -> In k (map fst d).
Proof.
  induction d as [|[k' [f'|m]] d IH]; cbn; [tauto| |].
  - intros [H|H]; [left; congruence | right; apply IH; exact H].
  - intros H. right. apply IH. exact H.
Qed.

Lemma dict_set_items_in (K : string) (v : node) (d : dict)
                        (k : string) (f : JField.t) :
  In (k, f) (dict_items (dict_set K v d)) ->
  In (k, f) (dict_items d) \/ (k = K /\ v = Leaf f).
Proof.
  induction d as [|[k' v'] d IH]; cbn [dict_set].
  - destruct v as [f0|m]; cbn; [|tauto].
    intros [H|[]]. right. split; congruence.
  - destruct (String.eqb_spec k' K) as [E|E].
    + destruct v as [f0|m], v' as [f'|m']; cbn; intros H;
        repeat match goal with
               | H : _ \/ _ |- _ => destruct H as [H|H]
               end;
        try (left; tauto); try (right; split; congruence).
    + destruct v' as [f'|m']; cbn [dict_items].
      * intros [H|H]; [left; left; exact H|].
        destruct (IH H) as [H'|H']; [left; right; exact H' | right; exact H'].
      * exact IH.
Qed.

Lemma dict_set_keys_in (K : string) (v : node) (d : dict) (k : string) :
  In k (map fst (dict_set K v d)) -> k = K \/ In k (map fst d).
Proof.
  induction d as [|[k' v'] d IH]; cbn [dict_set].
  - cbn. intros [H|[]]. left. congruence.
  - destruct (String.eqb_spec k' K) as [E|E]; cbn.
    + tauto.
    + intros [H|H]; [tauto|]. destruct (IH H); tauto.
Qed.

Lemma dict_set_keys_distinct (K : string) (v : node) (d : dict) :
  keys_distinct d -> keys_distinct (dict_set K v d).
Proof.
  unfold keys_distinct. induction d as [|[k' v'] d IH]; cbn [dict_set].
  - intros _. cbn. constructor; [intros [] | constructor].
  - cbn [map fst]. intros N. apply NoDup_cons_iff in N as [H N].
    destruct (String.eqb_spec k' K) as [E|E]; cbn [map fst].
    + constructor; assumption.
    + constructor; [|apply IH; exact N].
      intros Hin. apply dict_set_keys_in in Hin as [Hin|Hin]; auto.
Qed.

(** After a merge, an entry is an entry of before under the same key, or one
    of them with the flags ORed in. *)
Lemma merge_flags_items (nm : string) (fl : Z) (d d' : dict) :
  merge_flags nm fl d = Some d' ->
  forall k e', In (k, e') (dict_items d') ->
  In (k, e') (dict_items d)
  \/ exists e, In (k, e) (dict_items d) /\ e' = JField.or_flags e fl.
Proof.
  revert d'. induction d as [|[k0 [f|m]] d IH]; intros d' H k e' Hin;
    cbn [merge_flags] in H.
  - discriminate H.
  - destruct (String.eqb (JField.name f) nm).
    + injection H as <-. cbn [dict_items] in *. destruct Hin as [Hin|Hin].
      * injection Hin as <- <-. right. exists f. split; [left|]; reflexivity.
      * left. right. exact Hin.
    + destruct (merge_flags nm fl d) as [d0|]; [|discriminate H].
      injection H as <-. cbn [dict_items] in *. destruct Hin as [Hin|Hin].
      * left. left. exact Hin.
      * destruct (IH d0 eq_refl k e' Hin) as [H'|(e & He & H')].
        -- left. right. exact H'.
        -- right. exists e. split; [right; exact He | exact H'].
  - destruct (merge_flags nm fl d) as [d0|]; [|discriminate H].
    injection H as <-. cbn [dict_items] in *. apply (IH d0 eq_refl k e' Hin).
Qed.

Lemma merge_flags_values (Q : node -> Prop) (nm : string) (fl : Z)
                         (d d' : dict) :
  (forall f, Q (Leaf f)) ->
  merge_flags nm fl d = Some d' ->
  Forall (fun kv : string * node => Q (snd kv)) d ->
  Forall (fun kv : string * node => Q (snd kv)) d'.
Proof.
  intros HQ. revert d'.
  induction d as [|[k [f|m]] d IH]; intros d' H F; cbn [merge_flags] in H.
  - discriminate H.
  - inversion F; subst. destruct (String.eqb (JField.name f) nm).
    + injection H as <-. constructor; [apply HQ | assumption].
    + destruct (merge_flags nm fl d) as [d0|]; [|discriminate H].
      injection H as <-. constructor; [apply HQ | apply IH; auto].
  - inversion F; subst.
    destruct (merge_flags nm fl d) as [d0|]; [|discriminate H].
    injection H as <-. constructor; [assumption | apply IH; auto].
Qed.

Lemma dict_set_values (Q : node -> Prop) (k : string) (v : node) (d : dict) :
  Q v ->
  Forall (fun kv : string * node => Q (snd kv)) d ->
  Forall (fun kv : string * node => Q (snd kv)) (dict_set k v d).
Proof.
  intros Hv. induction d as [|[k' v'] d IH]; cbn [dict_set]; intros F.
  - constructor; [exact Hv | constructor].
  - inversion F; subst. destruct (String.eqb k' k); constructor; auto.
Qed.

(** A property of dicts that holds of the empty dict and is kept when a
    nested dict is stored and when a file is processed holds of every dict
    of the tree that the walk builds. *)
Variable P : dict -> Prop.
Hypothesis P_nil : P [].
Hypothesis P_sub : forall k m d, P d -> P (dict_set k (Sub m) d).
Hypothesis P_file : forall self path d, P d -> P (_process_file self path d).

Lemma process_file_every (self : t) (path : Path.t) (dest : dict) :
  every_dict P (Sub dest) -> every_dict P (Sub (_process_file self path dest)).
Proof.
  intros W. inversion W as [|? HP F]; subst.
  constructor; [apply P_file; exact HP|].
  destruct (is_icon self path) eqn:Hi.
  - destruct (merge_flags (normalize_name (Path.stem path))
                          (get_flags (Path.name path)) dest) as [d'|] eqn:M.
    + rewrite (process_file_merge _ _ _ _ Hi M).
      apply (merge_flags_values _ _ _ _ _ (every_Leaf P) M F).
    + rewrite (process_file_create _ _ _ Hi M).
      apply dict_set_values; [constructor | exact F].
  - rewrite (process_file_skip _ _ _ Hi). exact F.
Qed.

Lemma process_child_every (child : fsentry) :
  forall path self imap,
    every_dict P (Sub imap) ->
    every_dict P (Sub (snd (process_child path child (self, imap)))).
Proof.
  induction child as [nm|nm children IH] using fsentry_nested_ind;
    intros path self imap W.
  - rewrite process_child_File. cbn [snd]. apply process_file_every. exact W.
  - rewrite process_child_Dir. cbn [snd].
    assert (S : every_dict P
                  (Sub (snd (_process_dir self (Path.joinpath path nm)
                                          children [])))).
    { assert (W0 : every_dict P (Sub [])) by (constructor; [exact P_nil|constructor]).
      revert W0. generalize (Path.joinpath path nm) as p.
      generalize (@nil (string * node)) as d. generalize self as s.
      induction children as [|c l IHl]; intros s d p W0; [exact W0|].
      inversion IH as [|? ? Hc Hl]; subst. rewrite process_dir_cons.
      apply (IHl Hl). apply Hc. exact W0. }
    inversion W as [|? HP F]; subst. constructor.
    + apply P_sub. exact HP.
    + apply dict_set_values; assumption.
Qed.

Lemma process_dir_every (children : list fsentry) :
  forall self path imap,
    every_dict P (Sub imap) ->
    every_dict P (Sub (snd (_process_dir self path children imap))).
Proof.
  induction children as [|c l IH]; intros self path imap W; [exact W|].
  rewrite process_dir_cons. apply IH. apply process_child_every. exact W.
Qed.

Lemma process_every (k : option Z) (s : option string)
                    (e : option (list string))
                    (directory : Path.t) (children : list fsentry) :
  every_dict P (Sub (icon_map (process (__init__ k s e) directory children))).
Proof.
  unfold process.
  pose proof (process_dir_every children (__init__ k s e) directory
                (icon_map (__init__ k s e))) as H.
  destruct (_process_dir (__init__ k s e) directory children
              (icon_map (__init__ k s e))) as [self' imap'].
  apply H. constructor; [exact P_nil | constructor].
Qed.

End EveryDict.

Section TreeInvariants.

Import IconCollector.

Lemma keyed_by_path_file (self : t) (path : Path.t) (d : dict) :
  keyed_by_path d -> keyed_by_path (_process_file self path d).
Proof.
  intros H k f Hin. destruct (is_icon self path) eqn:Hi.
  - destruct (merge_flags (normalize_name (Path.stem path))
                          (get_flags (Path.name path)) d) as [d'|] eqn:M.
    + rewrite (process_file_merge _ _ _ _ Hi M) in Hin.
      destruct (merge_flags_items _ _ _ _ M k f Hin) as [H'|(e & He & ->)].
      * apply H. exact H'.
      * cbn [JField.or_flags JField.path]. apply H. exact He.
    + rewrite (process_file_create _ _ _ Hi M) in Hin.
      apply dict_set_items_in in Hin as [Hin|[-> Hin]]; [apply H; exact Hin|].
      injection Hin as <-. reflexivity.
  - rewrite (process_file_skip _ _ _ Hi) in Hin. apply H. exact Hin.
Qed.

Lemma leaf_of_item (d : dict) (f : JField.t) :
  In f (dict_leaves d) -> exists k, In (k, f) (dict_items d).
Proof.
  rewrite dict_leaves_items. intros H.
  apply in_map_iff in H as ([k f'] & E & H). cbn in E. subst f'.
  exists k. exact H.
Qed.

Lemma item_leaf (d : dict) (k : string) (f : JField.t) :
  In (k, f) (dict_items d) -> In f (dict_leaves d).
Proof.
  rewrite dict_leaves_items. intros H.
  apply in_map_iff. exists (k, f). split; [reflexivity | exact H].
Qed.

(** What [_process_file] can leave in a dict: an entry of before, an entry of
    before with the flags of the file ORed in, or the entry built for the
    file. *)
Lemma process_file_leaves (self : t) (path : Path.t) (d : dict) (f : JField.t) :
  In f (dict_leaves (_process_file self path d)) ->
  In f (dict_leaves d)
  \/ (exists e, In e (dict_leaves d)
                /\ f = JField.or_flags e (get_flags (Path.name path)))
  \/ exists p, f = JField.mk (normalize_name (Path.stem path)) (key self)
                             (get_flags (Path.name path)) p.
Proof.
  intros Hin. destruct (is_icon self path) eqn:Hi.
  - destruct (merge_flags (normalize_name (Path.stem path))
                          (get_flags (Path.name path)) d) as [d'|] eqn:M.
    + rewrite (process_file_merge _ _ _ _ Hi M) in Hin.
      apply leaf_of_item in Hin as [k Hin].
      destruct (merge_flags_items _ _ _ _ M k f Hin) as [H'|(e & He & ->)].
      * left. apply (item_leaf _ _ _ H').
      * right. left. exists e. split; [apply (item_leaf _ _ _ He) | reflexivity].
    + rewrite (process_file_create _ _ _ Hi M) in Hin.
      apply dict_set_leaves_in in Hin as [Hin|Hin]; [left; exact Hin|].
      right. right. injection Hin as <-. eexists. reflexivity.
  - rewrite (process_file_skip _ _ _ Hi) in Hin. left. exact Hin.
Qed.

Lemma get_flags_range (name : string) :
  get_flags name = 0 \/ get_flags name = 1 \/ get_flags name = 2
  \/ get_flags name = 4 \/ get_flags name = 8.
Proof.
  unfold get_flags.
  repeat match goal with
         | |- context [if ?b then _ else _] => destruct b
         end; tauto.
Qed.

Lemma lor_flag_range (a : Z) (name : string) :
  0 <= a <= 15 -> 0 <= Z.lor a (get_flags name) <= 15.
Proof.
  intros Ha.
  assert (A : a = 0 \/ a = 1 \/ a = 2 \/ a = 3 \/ a = 4 \/ a = 5 \/ a = 6
              \/ a = 7 \/ a = 8 \/ a = 9 \/ a = 10 \/ a = 11 \/ a = 12
              \/ a = 13 \/ a = 14 \/ a = 15) by lia.
  destruct (get_flags_range name) as [E|[E|[E|[E|E]]]]; rewrite E;
    repeat (destruct A as [->|A]; [cbn; lia|]); subst a; cbn; lia.
Qed.

End TreeInvariants.

(** X6: in the tree that a run of a new collector builds, every entry of
    every dict, at any depth, is stored under the key that is its own
    [path]. *)
Theorem entries_keyed_by_path (k : option Z) (s : option string)
                              (e : option (list string))
                              (directory : Path.t) (children : list fsentry) :
  every_dict keyed_by_path
    (Sub (IconCollector.icon_map
            (IconCollector.process (IconCollector.__init__ k s e)
                                   directory children))).
Proof.
  apply process_every.
  - intros k0 f [].
  - intros k0 m d H k1 f Hin.
    apply dict_set_items_in in Hin as [Hin|[_ Hin]];
      [apply H; exact Hin | discriminate Hin].
  - apply keyed_by_path_file.
Qed.

(** X7: in the tree that a run of a new collector builds, no entry has a
    hyphen in its name. *)
Theorem entry_names_without_hyphen (k : option Z) (s : option string)
                                   (e : option (list string))
                                   (directory : Path.t)
                                   (children : list fsentry) :
  every_dict names_without_hyphen
    (Sub (IconCollector.icon_map
            (IconCollector.process (IconCollector.__init__ k s e)
                                   directory children))).
Proof.
  apply process_every.
  - intros f [].
  - intros k0 m d H f Hin.
    apply dict_set_leaves_in in Hin as [Hin|Hin];
      [apply H; exact Hin | discriminate Hin].
  - intros self path d H f Hin.
    apply process_file_leaves in Hin as [Hin|[(e0 & He & ->)|(p & ->)]].
    + apply H. exact Hin.
    + cbn [JField.or_flags JField.name]. apply H. exact He.
    + cbn [JField.name]. apply replace_hyphen_clean.
Qed.

(** X8: in the tree that a run of a new collector builds, the flags of every
    entry are between 0 and 15: a mask of the bits 1, 2, 4 and 8. *)
Theorem entry_flags_in_range (k : option Z) (s : option string)
                             (e : option (list string))
                             (directory : Path.t) (children : list fsentry) :
  every_dict flags_in_range
    (Sub (IconCollector.icon_map
            (IconCollector.process (IconCollector.__init__ k s e)
                                   directory children))).
Proof.
  apply process_every.
  - intros f [].
  - intros k0 m d H f Hin.
    apply dict_set_leaves_in in Hin as [Hin|Hin];
      [apply H; exact Hin | discriminate Hin].
  - intros self path d H f Hin.
    apply process_file_leaves in Hin as [Hin|[(e0 & He & ->)|(p & ->)]].
    + apply H. exact Hin.
    + cbn [JField.or_flags JField.flags]. apply lor_flag_range. apply H.
      exact He.
    + cbn [JField.flags].
      destruct (get_flags_range (Path.name path)) as [E|[E|[E|[E|E]]]];
        rewrite E; lia.
Qed.

(** X9: in the tree that a run of a new collector builds, no dict holds a key
    twice: every store under a key that is in use takes the place of the
    value that was there. *)
Theorem dict_keys_distinct (k : option Z) (s : option string)
                           (e : option (list string))
                           (directory : Path.t) (children : list fsentry) :
  every_dict keys_distinct
    (Sub (IconCollector.icon_map
            (IconCollector.process (IconCollector.__init__ k s e)
                                   directory children))).
Proof.
  apply process_every.
  - constructor.
  - intros k0 m d H. apply dict_set_keys_distinct. exact H.
  - intros self path d H. destruct (is_icon self path) eqn:Hi.
    + destruct (IconCollector.merge_flags
                  (normalize_name (Path.stem path))
                  (get_flags (Path.name path)) d) as [d'|] eqn:M.
      * rewrite (process_file_merge _ _ _ _ Hi M). unfold keys_distinct.
        rewrite (proj2 (merge_flags_length _ _ _ _ M)). exact H.
      * rewrite (process_file_create _ _ _ Hi M).
        apply dict_set_keys_distinct. exact H.
    + rewrite (process_file_skip _ _ _ Hi). exact H.
Qed.

(** ** The walk, further *)

Section WalkFurther.

Import IconCollector.

Lemma process_file_config (self : t) (k : Z) (path : Path.t) :
  is_icon (set_key self k) path = is_icon self path.
Proof. reflexivity. Qed.

Lemma process_child_config (child : fsentry) :
  forall path self imap,
    src (fst (process_child path child (self, imap))) = src self
    /\ extensions (fst (process_child path child (self, imap)))
       = extensions self.
Proof.
  induction child as [nm|nm children IH] using fsentry_nested_ind;
    intros path self imap.
  - rewrite process_child_File. split; reflexivity.
  - rewrite process_child_Dir. cbn [fst].
    generalize (Path.joinpath path nm) as p.
    generalize (@nil (string * node)) as d. revert self.
    induction children as [|c l IHl]; intros self d p; [split; reflexivity|].
    inversion IH as [|? ? Hc Hl]; subst. rewrite process_dir_cons.
    destruct (IHl Hl (fst (process_child p c (self, d)))
                  (snd (process_child p c (self, d))) p) as [H1 H2].
    destruct (Hc p self d) as [H3 H4].
    split; [exact (eq_trans H1 H3) | exact (eq_trans H2 H4)].
Qed.

Lemma process_dir_config (children : list fsentry) :
  forall self path imap,
    src (fst (_process_dir self path children imap)) = src self
    /\ extensions (fst (_process_dir self path children imap))
       = extensions self.
Proof.
  induction children as [|c l IH]; intros self path imap; [split; reflexivity|].
  rewrite process_dir_cons.
  destruct (IH (fst (process_child path c (self, imap))) path
               (snd (process_child path c (self, imap)))) as [H1 H2].
  destruct (process_child_config c path self imap) as [H3 H4].
  split; [exact (eq_trans H1 H3) | exact (eq_trans H2 H4)].
Qed.

Lemma is_icon_extensions (s1 s2 : t) (path : Path.t) :
  extensions s1 = extensions s2 -> is_icon s1 path = is_icon s2 path.
Proof. unfold is_icon. intros ->. reflexivity. Qed.

Lemma count_icons_extensions (s1 s2 : t) (child : fsentry) :
  extensions s1 = extensions s2 ->
  forall path, count_icons s1 path child = count_icons s2 path child.
Proof.
  intros E. induction child as [nm|nm children IH] using fsentry_nested_ind;
    intros path.
  - cbn. rewrite (is_icon_extensions s1 s2 _ E). reflexivity.
  - cbn [count_icons]. generalize (Path.joinpath path nm) as p. intros p.
    induction children as [|c l IHl]; [reflexivity|].
    inversion IH as [|? ? Hc Hl]; subst. cbn [fold_right].
    rewrite (Hc p), (IHl Hl). reflexivity.
Qed.

Lemma count_icons_in_extensions (s1 s2 : t) (path : Path.t)
                                (l : list fsentry) :
  extensions s1 = extensions s2 ->
  fold_right (fun c n => (count_icons s1 path c + n)%nat) O l
  = fold_right (fun c n => (count_icons s2 path c + n)%nat) O l.
Proof.
  intros E. induction l as [|c l IH]; [reflexivity|]. cbn [fold_right].
  rewrite IH, (count_icons_extensions s1 s2 c E path). reflexivity.
Qed.

Lemma created_keys_in_length_aux (children : list fsentry) :
  Forall (fun child =>
            forall path self imap,
              (List.length (created_keys path child (self, imap))
               <= count_icons self path child)%nat) children ->
  forall path self imap,
    (List.length (created_keys_in path children (self, imap))
     <= count_icons_in self path children)%nat.
Proof.
  unfold count_icons_in.
  induction children as [|c l IH]; intros F path self imap; [cbn; lia|].
  inversion F as [|? ? Hc Hl]; subst.
  cbn [created_keys_in fold_right]. rewrite length_app.
  specialize (Hc path self imap).
  pose proof (proj2 (process_child_config c path self imap)) as E. revert E.
  destruct (process_child path c (self, imap)) as [s1 d1]. cbn [fst].
  intros E. specialize (IH Hl path s1 d1).
  rewrite (count_icons_in_extensions s1 self path l E) in IH. lia.
Qed.

Lemma created_keys_length (child : fsentry) :
  forall path self imap,
    (List.length (created_keys path child (self, imap))
     <= count_icons self path child)%nat.
Proof.
  induction child as [nm|nm children IH] using fsentry_nested_ind;
    intros path self imap.
  - cbn [created_keys count_icons fst snd]. unfold creates.
    rewrite process_file_config.
    destruct (is_icon self (Path.joinpath path nm)); cbn [andb]; [|cbn; lia].
    match goal with |- context [match ?m with Some _ => _ | None => _ end] =>
      destruct m end; cbn; lia.
  - rewrite created_keys_Dir. cbn [fst].
    apply (created_keys_in_length_aux children IH).
Qed.

(** At most one entry is built for a file, and none for a file whose
    extension is not accepted. *)
Lemma created_keys_in_length (children : list fsentry) :
  forall path self imap,
    (List.length (created_keys_in path children (self, imap))
     <= count_icons_in self path children)%nat.
Proof.
  apply created_keys_in_length_aux. apply Forall_forall.
  intros c _. apply created_keys_length.
Qed.

Lemma process_snd (self : t) (directory : Path.t) (children : list fsentry) :
  icon_map (process self directory children)
  = snd (_process_dir self directory children (icon_map self))
  /\ key (process self directory children)
     = key (fst (_process_dir self directory children (icon_map self)))
  /\ src (process self directory children)
     = src (fst (_process_dir self directory children (icon_map self)))
  /\ extensions (process self directory children)
     = extensions (fst (_process_dir self directory children (icon_map self))).
Proof.
  unfold process.
  destruct (_process_dir self directory children (icon_map self)).
  repeat split.
Qed.

End WalkFurther.

(** X10: the key of every entry of the tree that a run of a new collector
    builds lies in the window the walk consumed: strictly below the start
    key, and not below the start key minus the number of files visited. *)
Theorem entry_keys_in_window (k : option Z) (s : option string)
                             (e : option (list string))
                             (directory : Path.t) (children : list fsentry)
                             (f : JField.t) :
  let self := IconCollector.__init__ k s e in
  In f (tree_leaves
          (IconCollector.icon_map
             (IconCollector.process self directory children))) ->
  IconCollector.key self - Z.of_nat (count_files_in children) <= JField.key f
  /\ JField.key f < IconCollector.key self.
Proof.
  intros self Hf.
  destruct (process_snd self directory children) as (T & _).
  rewrite T in Hf.
  pose proof (keys_ok_dir self directory children (IconCollector.icon_map self))
    as (_ & _ & A3 & A4 & _).
  rewrite process_dir_key in A3.
  destruct (A4 (JField.key f)) as [[]|H];
    [unfold tree_keys; apply in_map; exact Hf|].
  specialize (A3 _ H). lia.
Qed.

Lemma entry_keys_in_window_witness :
  let self := IconCollector.__init__ None (Some "icons") None in
  let children := [File "foo.svg"; File "README.md"; File "foo_dark.svg"] in
  let f := JField.mk "foo" (-243615037) 2 "icons/foo" in
  In f (tree_leaves
          (IconCollector.icon_map
             (IconCollector.process self (Path.of_string "icons") children)))
  /\ (IconCollector.key self - Z.of_nat (count_files_in children)
      <= JField.key f
      /\ JField.key f < IconCollector.key self).
Proof.
  split; [left; reflexivity|].
  apply (entry_keys_in_window None (Some "icons") None
           (Path.of_string "icons")
           [File "foo.svg"; File "README.md"; File "foo_dark.svg"]
           (JField.mk "foo" (-243615037) 2 "icons/foo")).
  left. reflexivity.
Defined.

(** X11: the tree that a run of a new collector builds holds at most as many
    entries as the directory holds files with an accepted extension. *)
Theorem entries_at_most_icons (k : option Z) (s : option string)
                              (e : option (list string))
                              (directory : Path.t) (children : list fsentry) :
  let self := IconCollector.__init__ k s e in
  (List.length (tree_leaves
                  (IconCollector.icon_map
                     (IconCollector.process self directory children)))
   <= count_icons_in self directory children)%nat.
Proof.
  intros self.
  destruct (process_snd self directory children) as (T & _). rewrite T.
  pose proof (keys_ok_dir self directory children (IconCollector.icon_map self))
    as (_ & _ & _ & A4 & A5).
  pose proof (created_keys_in_length children directory self
                (IconCollector.icon_map self)) as L.
  set (tree := snd (IconCollector._process_dir self directory children
                      (IconCollector.icon_map self))) in *.
  assert (N : NoDup (tree_keys tree)) by (apply A5; [constructor | intros x []]).
  assert (I : incl (tree_keys tree)
                   (created_keys_in directory children
                      (self, IconCollector.icon_map self))).
  { intros x Hx. destruct (A4 x Hx) as [[]|H]. exact H. }
  pose proof (NoDup_incl_length N I) as H.
  unfold tree_keys in H. rewrite length_map in H. lia.
Qed.

(** X12: a collector whose entries have pairwise distinct keys, none below
    its counter, is in the same state after one more run: the keys of the
    tree stay pairwise distinct when [process] is called again. *)
Theorem keys_stay_distinct (self : IconCollector.t) (directory : Path.t)
                           (children : list fsentry) :
  NoDup (tree_keys (IconCollector.icon_map self)) ->
  (forall x, In x (tree_keys (IconCollector.icon_map self)) ->
             IconCollector.key self <= x) ->
  let self' := IconCollector.process self directory children in
  NoDup (tree_keys (IconCollector.icon_map self'))
  /\ forall x, In x (tree_keys (IconCollector.icon_map self')) ->
               IconCollector.key self' <= x.
Proof.
  intros N L self'.
  destruct (process_snd self directory children) as (T & K & _).
  fold self' in T, K. rewrite T, K.
  pose proof (keys_ok_dir self directory children (IconCollector.icon_map self))
    as (A1 & _ & A3 & A4 & A5).
  split; [apply A5; assumption|].
  intros x Hx. destruct (A4 x Hx) as [H|H].
  - specialize (L x H). lia.
  - specialize (A3 x H). lia.
Qed.

Lemma keys_stay_distinct_witness :
  let self :=
    IconCollector.mk
      [("icons/foo", Leaf (JField.mk "foo" (-243615037) 2 "icons/foo"))]
      (-243615038) "icons" [".svg"; ".png"] in
  let self' := IconCollector.process self (Path.of_string "icons/more")
                 [File "bar.svg"; File "foo.svg"] in
  (NoDup (tree_keys (IconCollector.icon_map self))
   /\ forall x, In x (tree_keys (IconCollector.icon_map self)) ->
                IconCollector.key self <= x)
  /\ NoDup (tree_keys (IconCollector.icon_map self'))
  /\ forall x, In x (tree_keys (IconCollector.icon_map self')) ->
               IconCollector.key self' <= x.
Proof.
  split.
  - split; [constructor; [intros [] | constructor]|].
    intros x [<-|[]]. cbn. lia.
  - apply (keys_stay_distinct
             (IconCollector.mk
                [("icons/foo",
                  Leaf (JField.mk "foo" (-243615037) 2 "icons/foo"))]
                (-243615038) "icons" [".svg"; ".png"])
             (Path.of_string "icons/more") [File "bar.svg"; File "foo.svg"]).
    + constructor; [intros [] | constructor].
    + intros x [<-|[]]. cbn. lia.
Defined.

(** X13: a run changes the counter and the tree only: the source marker and
    the list of accepted extensions are those of before. *)
Theorem run_keeps_configuration (self : IconCollector.t) (directory : Path.t)
                                (children : list fsentry) :
  IconCollector.src (IconCollector.process self directory children)
  = IconCollector.src self
  /\ IconCollector.extensions (IconCollector.process self directory children)
     = IconCollector.extensions self.
Proof.
  destruct (process_snd self directory children) as (_ & _ & S & E).
  rewrite S, E. apply process_dir_config.
Qed.

Lemma dict_set_in (k : string) (v : node) (d : dict) :
  In (k, v) (dict_set k v d).
Proof.
  induction d as [|[k' v'] d IH]; cbn [dict_set]; [left; reflexivity|].
  destruct (String.eqb_spec k' k) as [->|E]; [left; reflexivity|].
  right. exact IH.
Qed.

Lemma tree_leaves_dicts (d : dict) (k : string) (m : dict) (f : JField.t) :
  In (k, Sub m) d -> In f (tree_leaves m) -> In f (tree_leaves d).
Proof.
  unfold tree_leaves. cbn [node_leaves]. intros Hin Hf.
  apply in_flat_map. exists (k, Sub m). split; [exact Hin | exact Hf].
Qed.

Lemma dict_set_lookup (k : string) (v0 v : node) (d : dict) :
  keys_distinct d -> In (k, v) (dict_set k v0 d) -> v = v0.
Proof.
  unfold keys_distinct. induction d as [|[k' v'] d IH]; cbn [dict_set].
  - intros _ [H|[]]. congruence.
  - cbn [map fst]. intros N. apply NoDup_cons_iff in N as [Hk N].
    destruct (String.eqb_spec k' k) as [->|E].
    + intros [H|H]; [congruence|]. exfalso. apply Hk.
      apply (in_map fst) in H. exact H.
    + intros [H|H]; [congruence | apply IH; assumption].
Qed.

Lemma process_dir_leaves_bound (self : IconCollector.t) (path : Path.t)
                               (children : list fsentry) :
  (List.length (tree_leaves
                  (snd (IconCollector._process_dir self path children [])))
   <= count_icons_in self path children)%nat.
Proof.
  pose proof (keys_ok_dir self path children []) as (_ & _ & _ & A4 & A5).
  pose proof (created_keys_in_length children path self []) as L.
  set (tree := snd (IconCollector._process_dir self path children [])) in *.
  assert (N : NoDup (tree_keys tree)) by (apply A5; [constructor | intros x []]).
  match type of L with
  | (List.length ?log <= _)%nat => assert (I : incl (tree_keys tree) log)
  end.
  { intros x Hx. destruct (A4 x Hx) as [[]|H]. exact H. }
  pose proof (NoDup_incl_length N I) as H.
  unfold tree_keys in H. rewrite length_map in H. lia.
Qed.

(** X14: a subdirectory always gets a dict of its own in the dict of its
    parent, whether or not it holds an icon: it is stored under the
    subdirectory's name, it is what the walk of the subdirectory builds from
    an empty dict, and it takes the place of whatever the parent's dict held
    under that name. *)
Theorem subdirectory_gets_dict (path : Path.t) (nm : string)
                               (children : list fsentry)
                               (self : IconCollector.t) (imap : dict) :
  keys_distinct imap ->
  let child := Path.joinpath path nm in
  let imap' := snd (IconCollector.process_child path (Dir nm children)
                      (self, imap)) in
  let sub_map := snd (IconCollector._process_dir self child children []) in
  In (Path.name child, Sub sub_map) imap'
  /\ (forall v, In (Path.name child, v) imap' -> v = Sub sub_map)
  /\ (count_icons_in self child children = 0%nat -> tree_leaves sub_map = []).
Proof.
  intros N child imap' sub_map. subst imap'. rewrite process_child_Dir.
  cbn [snd]. fold child sub_map. split; [apply dict_set_in|]. split.
  - intros v Hv. apply (dict_set_lookup _ _ _ _ N Hv).
  - intros Z. pose proof (process_dir_leaves_bound self child children) as B.
    fold sub_map in B. rewrite Z in B.
    destruct (tree_leaves sub_map); [reflexivity|].
    cbn [List.length] in B. lia.
Qed.

Lemma subdirectory_gets_dict_witness :
  let self := IconCollector.mk [] (-243615037) "icons" [".svg"; ".png"] in
  let path := Path.of_string "icons" in
  let imap := [("icons", Leaf (JField.mk "" (-243615037) 2 "icons"))] in
  let child := Path.joinpath path "icons" in
  let imap' := snd (IconCollector.process_child path
                      (Dir "icons" [File "notes.txt"]) (self, imap)) in
  let sub_map := snd (IconCollector._process_dir self child
                        [File "notes.txt"] []) in
  keys_distinct imap
  /\ In (Path.name child, Sub sub_map) imap'
  /\ (forall v, In (Path.name child, v) imap' -> v = Sub sub_map)
  /\ (count_icons_in self child [File "notes.txt"] = 0%nat ->
      tree_leaves sub_map = []).
Proof.
  assert (N : keys_distinct
                [("icons", Leaf (JField.mk "" (-243615037) 2 "icons"))])
    by (constructor; [intros [] | constructor]).
  split; [exact N|].
  apply (subdirectory_gets_dict (Path.of_string "icons") "icons"
           [File "notes.txt"]
           (IconCollector.mk [] (-243615037) "icons" [".svg"; ".png"])
           [("icons", Leaf (JField.mk "" (-243615037) 2 "icons"))]).
  exact N.
Defined.

(** X15: after [_process_file] has processed a file with an accepted
    extension, the dict holds an entry under the file's normalized name whose
    flags include the flag derived from the file's name. *)
Theorem accepted_file_is_recorded (self : IconCollector.t) (path : Path.t)
                                  (dest : dict) :
  is_icon self path = true ->
  exists f,
    In f (dict_leaves (IconCollector._process_file self path dest))
    /\ JField.name f = normalize_name (Path.stem path)
    /\ bits_subset (get_flags (Path.name path)) (JField.flags f).
Proof.
  intros Hi.
  destruct (named (normalize_name (Path.stem path)) dest) as [|f rest] eqn:Hn.
  - assert (C : creates self path dest = true)
      by (apply creates_iff; split; assumption).
    destruct (process_file_created _ _ _ C) as [_ E].
    match type of E with
    | _ = [?new] =>
        exists new;
        assert (Hin : In new (named (normalize_name (Path.stem path))
                                (IconCollector._process_file self path dest)))
          by (rewrite E; left; reflexivity)
    end.
    unfold named in Hin. apply filter_In in Hin as [Hin _].
    split; [exact Hin|]. split; [reflexivity | apply bits_subset_refl].
  - destruct (process_file_merged self path dest f rest Hi Hn) as [_ E].
    exists (JField.or_flags f (get_flags (Path.name path))).
    assert (Hin : In (JField.or_flags f (get_flags (Path.name path)))
                     (named (normalize_name (Path.stem path))
                            (IconCollector._process_file self path dest)))
      by (rewrite E; left; reflexivity).
    unfold named in Hin. apply filter_In in Hin as [Hin Hname].
    split; [exact Hin|]. split; [apply String.eqb_eq; exact Hname|].
    intros n Hb. cbn. rewrite Z.lor_spec, Hb. apply orb_true_r.
Qed.

Lemma accepted_file_is_recorded_witness :
  let self := IconCollector.mk [] (-243615038) "icons" [".svg"; ".png"] in
  let path := Path.of_string "icons/foo_dark.svg" in
  let dest := [("icons/foo", Leaf (JField.mk "foo" (-243615037) 1 "icons/foo"))] in
  is_icon self path = true
  /\ exists f,
      In f (dict_leaves (IconCollector._process_file self path dest))
      /\ JField.name f = normalize_name (Path.stem path)
      /\ bits_subset (get_flags (Path.name path)) (JField.flags f).
Proof.
  split; [reflexivity|].
  apply (accepted_file_is_recorded
           (IconCollector.mk [] (-243615038) "icons" [".svg"; ".png"])
           (Path.of_string "icons/foo_dark.svg")
           [("icons/foo", Leaf (JField.mk "foo" (-243615037) 1 "icons/foo"))]).
  reflexivity.
Defined.

(** ** Paths of the children of a directory *)

Section PathFacts.

Import PyStr.

Lemma starts_with_length (sub s : string) :
  starts_with sub s = true -> (length sub <= length s)%nat.
Proof.
  revert s. induction sub as [|a sub IH]; intros s H; [cbn; lia|].
  destruct s as [|b s]; [discriminate H|]. cbn [starts_with] in H.
  apply andb_prop in H as [_ H]. specialize (IH s H). cbn. lia.
Qed.

Lemma starts_with_app_long (sub a b : string) :
  (length sub <= length a)%nat ->
  starts_with sub (a ++ b) = starts_with sub a.
Proof.
  revert a. induction sub as [|x sub IH]; intros a H; [reflexivity|].
  destruct a as [|y a]; [cbn in H; lia|]. cbn [append starts_with].
  rewrite IH; [reflexivity | cbn in H; lia].
Qed.

Lemma length_drop_le (n : nat) (s : string) :
  (length (drop n s) <= length s)%nat.
Proof.
  revert s. induction n as [|n IH]; intros s; [cbn; lia|].
  destruct s as [|c s]; [cbn; lia|]. cbn [drop String.length].
  specialize (IH s). lia.
Qed.

Lemma find_fits (sub s : string) (i : nat) :
  find sub s = Some i -> (length sub <= length s)%nat /\ (i <= length s)%nat.
Proof.
  intros F. destruct (find_Some _ _ _ F) as (H1 & H2 & H3 & _).
  apply starts_with_length in H3. pose proof (length_drop_le i s) as L.
  split; [lia|]. rewrite <- H2. clear. revert s.
  induction i as [|i IH]; intros s; [cbn; lia|].
  destruct s as [|c s]; [cbn; lia|]. cbn [take String.length].
  specialize (IH s). lia.
Qed.

(** The first occurrence in a string is the first occurrence in any string
    that extends it. *)
Lemma find_app (sub a b : string) (i : nat) :
  find sub a = Some i -> find sub (a ++ b) = Some i.
Proof.
  revert i. induction a as [|c a IH]; intros i F.
  - cbn [find] in F. destruct (starts_with sub "") eqn:E; [|discriminate F].
    apply starts_with_nil in E. subst sub. injection F as <-.
    cbn [append]. destruct b; reflexivity.
  - pose proof (find_fits _ _ _ F) as [L _]. cbn [find] in F.
    cbn [append find]. change (String c (a ++ b)) with (String c a ++ b).
    rewrite (starts_with_app_long sub (String c a) b L).
    destruct (starts_with sub (String c a)); [exact F|].
    destruct (find sub a) as [j|]; [|discriminate F].
    rewrite (IH j eq_refl). exact F.
Qed.

Lemma drop_app (n : nat) (a b : string) :
  (n <= length a)%nat -> drop n (a ++ b) = drop n a ++ b.
Proof.
  revert a. induction n as [|n IH]; intros a H; [reflexivity|].
  destruct a as [|c a]; [cbn in H; lia|]. cbn [append drop].
  apply IH. cbn in H. lia.
Qed.

Lemma contains_app_r (sub a b : string) :
  contains sub b = true -> contains sub (a ++ b) = true.
Proof.
  intros H. induction a as [|c a IH]; [exact H|].
  cbn [append]. rewrite contains_cons, IH. apply orb_true_r.
Qed.

Lemma append_inv_head (a b c : string) : a ++ b = a ++ c -> b = c.
Proof.
  induction a as [|x a IH]; intros H; [exact H|].
  cbn [append] in H. injection H as H. apply IH. exact H.
Qed.

Lemma split_slash_no_slash (s x : string) :
  In x (Path.split_slash s) -> contains "/" x = false.
Proof.
  revert x. induction s as [|c s IH]; intros x H; cbn [Path.split_slash] in H.
  - destruct H as [<-|[]]. reflexivity.
  - destruct (Ascii.eqb c "/") eqn:E.
    + destruct H as [<-|H]; [reflexivity | apply IH; exact H].
    + destruct (Path.split_slash s) as [|y r].
      * destruct H as [<-|[]]. rewrite contains_cons. cbn [starts_with].
        rewrite Ascii.eqb_sym, E. reflexivity.
      * destruct H as [<-|H].
        -- rewrite contains_cons. cbn [starts_with].
           rewrite Ascii.eqb_sym, E. cbn [andb orb].
           apply IH. left. reflexivity.
        -- apply IH. right. exact H.
Qed.

Lemma single_component_spec (nm : string) :
  single_component nm = true ->
  starts_with "/" nm = false
  /\ Path.components nm = [nm]
  /\ contains "/" nm = false.
Proof.
  unfold single_component. intros H. apply andb_prop in H as [H1 H2].
  apply negb_true_iff in H1.
  destruct (Path.components nm) as [|x [|y r]] eqn:C; try discriminate H2.
  apply String.eqb_eq in H2. subst x. repeat split; [exact H1|].
  apply (split_slash_no_slash nm). unfold Path.components in C.
  assert (Hin : In nm (filter
                         (fun x => negb (String.eqb x "")
                                   && negb (String.eqb x "."))
                         (Path.split_slash nm)))
    by (rewrite C; left; reflexivity).
  apply filter_In in Hin as [Hin _]. exact Hin.
Qed.

Lemma joinpath_single (p : Path.t) (nm : string) :
  single_component nm = true ->
  Path.joinpath p nm = Path.mk (Path.root p) (Path.parts p ++ [nm]).
Proof.
  intros H. destruct (single_component_spec nm H) as (H1 & H2 & _).
  unfold Path.joinpath. rewrite H1, H2. reflexivity.
Qed.

Lemma parent_joinpath (p : Path.t) (nm : string) :
  single_component nm = true -> Path.parent (Path.joinpath p nm) = p.
Proof.
  intros H. rewrite (joinpath_single p nm H). unfold Path.parent.
  cbn [Path.root Path.parts]. rewrite removelast_last. destruct p; reflexivity.
Qed.

Lemma name_joinpath (p : Path.t) (nm : string) :
  single_component nm = true -> Path.name (Path.joinpath p nm) = nm.
Proof.
  intros H. rewrite (joinpath_single p nm H). unfold Path.name.
  cbn [Path.parts]. apply last_last.
Qed.

Lemma join_app_last (ps : list string) (n : string) :
  ps <> [] -> join "/" (ps ++ [n]) = join "/" ps ++ "/" ++ n.
Proof.
  induction ps as [|x [|y r] IH]; intros H; [contradiction| reflexivity |].
  change (join "/" ((x :: y :: r) ++ [n]))
    with (x ++ "/" ++ join "/" ((y :: r) ++ [n])).
  rewrite IH by discriminate.
  change (join "/" (x :: y :: r)) with (x ++ "/" ++ join "/" (y :: r)).
  rewrite !append_assoc. reflexivity.
Qed.

Lemma str_joinpath (p : Path.t) (n : string) :
  Path.parts p <> [] -> single_component n = true ->
  Path.str (Path.joinpath p n) = Path.str p ++ "/" ++ n.
Proof.
  intros Hp Hn. rewrite (joinpath_single p n Hn). destruct p as [r ps].
  cbn [Path.parts Path.root] in *. destruct ps as [|x ps]; [contradiction|].
  unfold Path.str. cbn [Path.root Path.parts app].
  change (x :: (ps ++ [n]))%list with ((x :: ps) ++ [n])%list.
  rewrite (join_app_last (x :: ps) n Hp).
  destruct r; rewrite ?append_assoc; reflexivity.
Qed.

(** The key of the entry of a file of the directory [p], when the marker
    occurs in the path of [p]: the path of [p] from the marker on, a slash,
    and the normalized name. *)
Lemma source_relative_child (src : string) (p : Path.t) (n : string)
                            (idx : nat) :
  Path.parts p <> [] -> single_component n = true ->
  find src (Path.str p) = Some idx ->
  IconCollector.source_relative src (Path.joinpath p n)
  = drop idx (Path.str p) ++ "/" ++ n.
Proof.
  intros Hp Hn F. unfold IconCollector.source_relative, Path.as_posix.
  rewrite (str_joinpath p n Hp Hn), (find_app _ _ _ _ F).
  apply drop_app. apply (find_fits _ _ _ F).
Qed.

End PathFacts.

(** ** No entry is lost when the marker occurs in the directory's path *)

Section NoLoss.

Import IconCollector.

Lemma merge_flags_forward (nm : string) (fl : Z) (d d' : dict) :
  merge_flags nm fl d = Some d' ->
  forall f, In f (dict_leaves d) ->
  exists f', In f' (dict_leaves d')
             /\ JField.name f' = JField.name f
             /\ bits_subset (JField.flags f) (JField.flags f').
Proof.
  revert d'. induction d as [|[k [f0|m]] d IH]; intros d' H f Hin;
    cbn [merge_flags] in H.
  - discriminate H.
  - destruct (String.eqb (JField.name f0) nm).
    + injection H as <-. cbn [dict_leaves] in *. destruct Hin as [<-|Hin].
      * exists (JField.or_flags f0 fl). split; [left; reflexivity|].
        split; [reflexivity|]. intros n Hn. cbn.
        rewrite Z.lor_spec, Hn. reflexivity.
      * exists f. split; [right; exact Hin|].
        split; [reflexivity | apply bits_subset_refl].
    + destruct (merge_flags nm fl d) as [d0|]; [|discriminate H].
      injection H as <-. cbn [dict_leaves] in *. destruct Hin as [<-|Hin].
      * exists f0. split; [left; reflexivity|].
        split; [reflexivity | apply bits_subset_refl].
      * destruct (IH d0 eq_refl f Hin) as (f' & H1 & H2).
        exists f'. split; [right; exact H1 | exact H2].
  - destruct (merge_flags nm fl d) as [d0|]; [|discriminate H].
    injection H as <-. cbn [dict_leaves] in *. apply (IH d0 eq_refl f Hin).
Qed.

Lemma dict_set_leaf_keeps (K : string) (new : JField.t) (d : dict) :
  (forall f, ~ In (K, f) (dict_items d)) ->
  forall it, In it (dict_items d) ->
             In it (dict_items (dict_set K (Leaf new) d)).
Proof.
  induction d as [|[k' v'] d IH]; intros HK it Hin; [destruct Hin|].
  cbn [dict_set]. destruct (String.eqb_spec k' K) as [->|E].
  - destruct v' as [f'|m']; cbn [dict_items] in *.
    + exfalso. apply (HK f'). left. reflexivity.
    + right. exact Hin.
  - destruct v' as [f'|m']; cbn [dict_items] in *.
    + destruct Hin as [Hin|Hin]; [left; exact Hin | right].
      apply IH; [|exact Hin]. intros f H. apply (HK f). right. exact H.
    + apply IH; assumption.
Qed.

Lemma dict_set_sub_keeps (K : string) (m : dict) (d : dict) :
  (forall f, ~ In (K, f) (dict_items d)) ->
  dict_items (dict_set K (Sub m) d) = dict_items d.
Proof.
  induction d as [|[k' v'] d IH]; intros HK; [reflexivity|].
  cbn [dict_set]. destruct (String.eqb_spec k' K) as [->|E].
  - destruct v' as [f'|m']; cbn [dict_items] in *; [|reflexivity].
    exfalso. apply (HK f'). left. reflexivity.
  - destruct v' as [f'|m']; cbn [dict_items] in *.
    + f_equal. apply IH. intros f H. apply (HK f). right. exact H.
    + apply IH. exact HK.
Qed.

Lemma bits_subset_trans (a b c : Z) :
  bits_subset a b -> bits_subset b c -> bits_subset a c.
Proof. intros H1 H2 n Hn. apply H2, H1, Hn. Qed.

Variables (self0 : t) (path : Path.t) (idx : nat).
Hypothesis Hparts : Path.parts path <> [].
Hypothesis Hfind : PyStr.find (src self0) (Path.str path) = Some idx.

Let base : string := PyStr.drop idx (Path.str path).

(** Every entry is stored under the directory's source-relative path, a
    slash and its name. *)
Let keyed (d : dict) : Prop :=
  forall k f, In (k, f) (dict_items d) -> k = base ++ "/" ++ JField.name f.

(** Every entry of [d] is still in [d'], with at least its flags. *)
Let kept (d d' : dict) : Prop :=
  forall f, In f (dict_leaves d) ->
  exists f', In f' (dict_leaves d')
             /\ JField.name f' = JField.name f
             /\ bits_subset (JField.flags f) (JField.flags f').

Let same_config (self : t) : Prop :=
  src self = src self0 /\ extensions self = extensions self0.

Lemma kept_refl (d : dict) : kept d d.
Proof.
  intros f Hf. exists f. split; [exact Hf|].
  split; [reflexivity | apply bits_subset_refl].
Qed.

Lemma kept_trans (d1 d2 d3 : dict) : kept d1 d2 -> kept d2 d3 -> kept d1 d3.
Proof.
  intros H1 H2 f Hf. destruct (H1 f Hf) as (f2 & I2 & N2 & B2).
  destruct (H2 f2 I2) as (f3 & I3 & N3 & B3).
  exists f3. split; [exact I3|]. split; [congruence|].
  apply (bits_subset_trans _ _ _ B2 B3).
Qed.

Lemma keyed_not_bare (d : dict) (dn : string) :
  keyed d -> single_component dn = true ->
  forall f, ~ In (dn, f) (dict_items d).
Proof.
  intros J Hd f Hin. destruct (single_component_spec dn Hd) as (_ & _ & S).
  rewrite (J dn f Hin) in S.
  rewrite (contains_app_r "/" base ("/" ++ JField.name f)) in S;
    [discriminate S|].
  apply contains_here. reflexivity.
Qed.

Lemma step_file (self : t) (nm : string) (d : dict) :
  same_config self ->
  plain_child self0 path (File nm) = true ->
  keyed d ->
  keyed (_process_file self (Path.joinpath path nm) d)
  /\ kept d (_process_file self (Path.joinpath path nm) d).
Proof.
  intros [Hs He] Hp J. cbn [plain_child] in Hp.
  apply andb_prop in Hp as [Hnm Hp].
  set (p := Path.joinpath path nm) in *.
  rewrite <- (is_icon_extensions self self0 p He) in Hp.
  destruct (is_icon self p) eqn:Hi;
    [|rewrite (process_file_skip _ _ _ Hi); split; [exact J | apply kept_refl]].
  cbn [negb orb] in Hp.
  destruct (merge_flags (normalize_name (Path.stem p))
                        (get_flags (Path.name p)) d) as [d'|] eqn:M.
  - rewrite (process_file_merge _ _ _ _ Hi M). split.
    + intros k f Hin.
      destruct (merge_flags_items _ _ _ _ M k f Hin) as [H|(e & H & ->)];
        [apply J; exact H | apply (J k e H)].
    + intros f Hf. apply (merge_flags_forward _ _ _ _ M f Hf).
  - rewrite (process_file_create _ _ _ Hi M).
    assert (K : source_relative (src self)
                  (Path.joinpath (Path.parent p) (normalize_name (Path.stem p)))
                = base ++ "/" ++ normalize_name (Path.stem p)).
    { unfold p at 1. rewrite (parent_joinpath path nm Hnm), Hs.
      apply (source_relative_child _ _ _ _ Hparts Hp Hfind). }
    rewrite K.
    assert (Fresh : forall f, ~ In (base ++ "/" ++ normalize_name (Path.stem p), f)
                                 (dict_items d)).
    { intros f Hin. pose proof (J _ f Hin) as E.
      apply append_inv_head in E. injection E as E.
      apply merge_flags_None in M. apply named_nil_iff in M. apply M.
      rewrite E. apply in_map. apply (item_leaf _ _ _ Hin). }
    split.
    + intros k f Hin.
      apply dict_set_items_in in Hin as [Hin|[-> Hin]]; [apply J; exact Hin|].
      injection Hin as <-. reflexivity.
    + intros f Hf. exists f. split; [|split; [reflexivity | apply bits_subset_refl]].
      apply leaf_of_item in Hf as [k Hf].
      apply (item_leaf _ k). apply dict_set_leaf_keeps; assumption.
Qed.

Lemma step_dir (self : t) (dn : string) (children : list fsentry) (d : dict) :
  single_component dn = true ->
  keyed d ->
  keyed (snd (process_child path (Dir dn children) (self, d)))
  /\ kept d (snd (process_child path (Dir dn children) (self, d))).
Proof.
  intros Hd J. rewrite process_child_Dir. cbn [snd].
  rewrite (name_joinpath path dn Hd).
  pose proof (dict_set_sub_keeps dn
                (snd (_process_dir self (Path.joinpath path dn) children []))
                d (keyed_not_bare d dn J Hd)) as E.
  split.
  - intros k f Hin. rewrite E in Hin. apply J. exact Hin.
  - intros f Hf. exists f. split; [|split; [reflexivity | apply bits_subset_refl]].
    rewrite dict_leaves_items, E, <- dict_leaves_items. exact Hf.
Qed.

Lemma file_recorded (self : t) (p : Path.t) (d : dict) :
  is_icon self p = true ->
  exists f,
    In f (dict_leaves (_process_file self p d))
    /\ JField.name f = normalize_name (Path.stem p)
    /\ bits_subset (get_flags (Path.name p)) (JField.flags f).
Proof.
  intros Hi.
  destruct (merge_flags (normalize_name (Path.stem p))
                        (get_flags (Path.name p)) d) as [d'|] eqn:M.
  - rewrite (process_file_merge _ _ _ _ Hi M).
    destruct (merge_flags_named _ _ _ _ M) as (f & rest & _ & H2 & _).
    exists (JField.or_flags f (get_flags (Path.name p))).
    assert (Hin : In (JField.or_flags f (get_flags (Path.name p)))
                     (named (normalize_name (Path.stem p)) d'))
      by (rewrite H2; left; reflexivity).
    unfold named in Hin. apply filter_In in Hin as [Hin Hname].
    split; [exact Hin|]. split; [apply String.eqb_eq; exact Hname|].
    intros n Hb. cbn. rewrite Z.lor_spec, Hb. apply orb_true_r.
  - rewrite (process_file_create _ _ _ Hi M). eexists.
    split; [apply dict_set_leaf_in|].
    split; [reflexivity | apply bits_subset_refl].
Qed.

Lemma walk_keeps_entries (children : list fsentry) :
  forall self d,
    same_config self ->
    forallb (plain_child self0 path) children = true ->
    keyed d ->
    keyed (snd (_process_dir self path children d))
    /\ kept d (snd (_process_dir self path children d))
    /\ forall nm,
         In (File nm) children ->
         is_icon self0 (Path.joinpath path nm) = true ->
         exists f,
           In f (dict_leaves (snd (_process_dir self path children d)))
           /\ JField.name f
              = normalize_name (Path.stem (Path.joinpath path nm))
           /\ bits_subset (get_flags (Path.name (Path.joinpath path nm)))
                          (JField.flags f).
Proof.
  induction children as [|c l IH]; intros self d C Hp J.
  - split; [exact J|]. split; [apply kept_refl | intros nm []].
  - cbn [forallb] in Hp. apply andb_prop in Hp as [Hc Hl].
    rewrite process_dir_cons.
    assert (S : keyed (snd (process_child path c (self, d)))
                /\ kept d (snd (process_child path c (self, d)))).
    { destruct c as [nm|dn ch].
      - rewrite process_child_File. cbn [snd].
        apply step_file; [exact C | exact Hc | exact J].
      - apply step_dir; [exact Hc | exact J]. }
    destruct S as [J1 K1].
    assert (C1 : same_config (fst (process_child path c (self, d)))).
    { destruct (process_child_config c path self d) as [H1 H2].
      destruct C as [C1 C2]. split; congruence. }
    destruct (IH _ _ C1 Hl J1) as (J2 & K2 & R2).
    split; [exact J2|]. split; [apply (kept_trans _ _ _ K1 K2)|].
    intros nm [->|Hin] Hi; [|apply R2; assumption].
    rewrite process_child_File in K2. cbn [snd] in K2.
    destruct C as [_ Ce].
    assert (Hi' : is_icon (set_key self (key self - 1))
                          (Path.joinpath path nm) = true)
      by (rewrite process_file_config, (is_icon_extensions self self0 _ Ce);
          exact Hi).
    destruct (file_recorded _ _ d Hi') as (f1 & I1 & N1 & B1).
    destruct (K2 f1 I1) as (f2 & I2 & N2 & B2).
    exists f2. rewrite process_child_File. cbn [fst snd].
    split; [exact I2|]. split; [congruence|].
    apply (bits_subset_trans _ _ _ B1 B2).
Qed.

End NoLoss.

Lemma unique_named (l : list JField.t) (f : JField.t) :
  NoDup (map JField.name l) -> In f l ->
  filter (fun f0 => String.eqb (JField.name f0) (JField.name f)) l = [f].
Proof.
  induction l as [|x l IH]; intros N Hin; [destruct Hin|].
  cbn [map] in N. apply NoDup_cons_iff in N as [Hx N]. cbn [filter].
  destruct Hin as [->|Hin].
  - rewrite String.eqb_refl. f_equal.
    clear IH N. induction l as [|y l IHl]; [reflexivity|]. cbn [filter].
    destruct (String.eqb_spec (JField.name y) (JField.name f)) as [E|E].
    + exfalso. apply Hx. left. exact E.
    + apply IHl. intros H. apply Hx. right. exact H.
  - destruct (String.eqb_spec (JField.name x) (JField.name f)) as [E|E].
    + exfalso. apply Hx. rewrite E. apply in_map. exact Hin.
    + apply IH; assumption.
Qed.

(** X16: in a directory whose path holds the source marker, with children
    named as a directory listing names them, no entry is lost: the walk of
    the directory into a new dict ends with exactly one entry for the
    normalized name of every file with an accepted extension, and its flags
    include the flag of that file. *)
Theorem no_entry_lost (self : IconCollector.t) (path : Path.t)
                      (children : list fsentry) (nm : string) :
  Path.parts path <> [] ->
  PyStr.contains (IconCollector.src self) (Path.str path) = true ->
  forallb (plain_child self path) children = true ->
  In (File nm) children ->
  is_icon self (Path.joinpath path nm) = true ->
  exists f,
    named (normalize_name (Path.stem (Path.joinpath path nm)))
          (snd (IconCollector._process_dir self path children []))
    = [f]
    /\ bits_subset (get_flags (Path.name (Path.joinpath path nm)))
                   (JField.flags f).
Proof.
  intros Hparts Hc Hp Hin Hi. unfold PyStr.contains in Hc.
  destruct (PyStr.find (IconCollector.src self) (Path.str path)) as [idx|]
    eqn:F; [|discriminate Hc].
  destruct (walk_keeps_entries self path idx Hparts F children self []
              (conj eq_refl eq_refl) Hp (fun k f H => match H with end))
    as (_ & _ & R).
  destruct (R nm Hin Hi) as (f & I & N & B).
  exists f. split; [|exact B].
  assert (W : wf_dict (snd (IconCollector._process_dir self path children [])))
    by (apply process_dir_wf; repeat constructor).
  inversion W as [|? U _]; subst. unfold named. rewrite <- N.
  apply unique_named; assumption.
Qed.

Lemma no_entry_lost_witness :
  let self := IconCollector.mk [] (-243615036) "icons" [".svg"; ".png"] in
  let path := Path.of_string "res/icons" in
  let children :=
    [File "foo@2x.svg"; File "all_icons.svg"; Dir "toolbar" [File "run.svg"];
     File "notes.txt"; File "foo_dark.svg"] in
  (Path.parts path <> []
   /\ PyStr.contains (IconCollector.src self) (Path.str path) = true
   /\ forallb (plain_child self path) children = true
   /\ In (File "foo@2x.svg") children
   /\ is_icon self (Path.joinpath path "foo@2x.svg") = true)
  /\ exists f,
      named (normalize_name
               (Path.stem (Path.joinpath path "foo@2x.svg")))
            (snd (IconCollector._process_dir self path children []))
      = [f]
      /\ bits_subset (get_flags (Path.name (Path.joinpath path "foo@2x.svg")))
                     (JField.flags f).
Proof.
  split.
  - split; [discriminate|]. repeat split. left. reflexivity.
  - apply (no_entry_lost
             (IconCollector.mk [] (-243615036) "icons" [".svg"; ".png"])
             (Path.of_string "res/icons")
             [File "foo@2x.svg"; File "all_icons.svg";
              Dir "toolbar" [File "run.svg"]; File "notes.txt";
              File "foo_dark.svg"]
             "foo@2x.svg");
      [discriminate | reflexivity | reflexivity | left; reflexivity
      | reflexivity].
Defined.

(** ** The emitter, further *)

Lemma write_values_occurs {U : PyStr.CaseMap} (d : dict) (k : string)
                          (v : node) (x : string) :
  In (k, v) d -> occurs_in x (write_value k v) -> occurs_in x (write_values d).
Proof.
  induction d as [|[k' v'] d IH]; intros Hin Ho; [destruct Hin|].
  cbn [write_values fold_right]. destruct Hin as [Hin|Hin].
  - injection Hin as -> ->. apply occurs_in_app_l. exact Ho.
  - apply occurs_in_app_r. apply IH; assumption.
Qed.

Lemma write_value_block {U : PyStr.CaseMap} (v : node) :
  forall k0 k m, In (k, m) (node_subs k0 v) ->
                 occurs_in (write_class (Path.of_string k) m)
                           (write_value k0 v).
Proof.
  induction v as [f0|m0 IH] using node_nested_ind; intros k0 k m Hin.
  - destruct Hin.
  - cbn [node_subs] in Hin. destruct Hin as [Hin|Hin].
    + injection Hin as -> ->. rewrite write_value_Sub. apply occurs_in_refl.
    + apply in_flat_map in Hin as ([k' v'] & Hkv & Hin).
      rewrite write_value_Sub. unfold write_class.
      apply occurs_in_app_r, occurs_in_app_r, occurs_in_app_r, occurs_in_app_r.
      apply occurs_in_app_l. apply (write_values_occurs m0 k' v' _ Hkv).
      assert (H := proj1 (Forall_forall _ _) IH (k', v') Hkv).
      apply H. exact Hin.
Qed.

(** X17: for every nested dict of the tree, at any depth, the text that
    [write] produces holds its whole class block: the opening line with the
    capitalized last component of its key, the text of its values, and the
    closing brace followed by an empty line. *)
Theorem class_block_emitted {U : PyStr.CaseMap} (package cls : string)
                            (values : dict) (k : string) (m : dict) :
  In (k, m) (tree_subs values) ->
  occurs_in
    ("public static final class "
     ++ PyStr.capitalize (Path.name (Path.of_string k)) ++ " {" ++ nl
     ++ write_values m ++ "}" ++ nl ++ nl)
    (write package cls values).
Proof.
  intros Hin. unfold write. apply occurs_in_app_r, occurs_in_app_l.
  unfold tree_subs in Hin. apply in_flat_map in Hin as ([k' v'] & Hkv & Hin).
  apply (write_values_occurs values k' v' _ Hkv).
  apply (write_value_block v' k' k m Hin).
Qed.

Lemma class_block_emitted_witness :
  let inner := [("icons/toolbar/run",
                 Leaf (JField.mk "run" (-243615040) 0 "icons/toolbar/run"))] in
  let values :=
    [("icons/foo", Leaf (JField.mk "foo" (-243615037) 2 "icons/foo"));
     ("toolbar", Sub [("debug", Sub inner)])] in
  In ("debug", inner) (tree_subs values)
  /\ occurs_in
       ("public static final class "
        ++ PyStr.capitalize (CaseMap := PyStr.ascii_case)
             (Path.name (Path.of_string "debug")) ++ " {" ++ nl
        ++ write_values (U := PyStr.ascii_case) inner ++ "}" ++ nl ++ nl)
       (write (U := PyStr.ascii_case) "demo" "Icons" values).
Proof.
  split; [right; left; reflexivity|].
  apply (class_block_emitted (U := PyStr.ascii_case) "demo" "Icons"
           [("icons/foo", Leaf (JField.mk "foo" (-243615037) 2 "icons/foo"));
            ("toolbar",
             Sub [("debug",
                   Sub [("icons/toolbar/run",
                         Leaf (JField.mk "run" (-243615040) 0
                                         "icons/toolbar/run"))])])]
           "debug"
           [("icons/toolbar/run",
             Leaf (JField.mk "run" (-243615040) 0 "icons/toolbar/run"))]).
  right. left. reflexivity.
Defined.

Lemma upper_of_lower (c : ascii) :
  PyStr.upper_char (PyStr.lower_char c) = PyStr.upper_char c.
Proof. destruct c as [[] [] [] [] [] [] [] []]; reflexivity. Qed.

(** X18: for names of ASCII characters, a declaration line does not see the
    case of the name: two names that are equal once their ASCII letters are
    lower-cased get the same identifier, and with the same path, key and
    flags they are written as the same line. *)
Theorem identifier_ignores_case {U : PyStr.CaseMap} (n1 n2 : string)
                                (k fl : Z) (p : string) :
  PyStr.is_ascii n1 = true ->
  PyStr.is_ascii n2 = true ->
  PyStr.ascii_lower n1 = PyStr.ascii_lower n2 ->
  PyStr.capitalize n1 = PyStr.capitalize n2
  /\ JField.__str__ (JField.mk n1 k fl p) = JField.__str__ (JField.mk n2 k fl p).
Proof.
  intros A1 A2 H.
  assert (C : PyStr.capitalize n1 = PyStr.capitalize n2).
  { rewrite (PyStr.capitalize_ascii n1 A1), (PyStr.capitalize_ascii n2 A2).
    destruct n1 as [|c1 s1], n2 as [|c2 s2]; try discriminate H; [reflexivity|].
    cbn [PyStr.ascii_lower] in H. injection H as Hc Hs.
    cbn [PyStr.ascii_capitalize].
    rewrite <- (upper_of_lower c1), <- (upper_of_lower c2), Hc, Hs.
    reflexivity. }
  split; [exact C|]. unfold JField.__str__. cbn [JField.name]. rewrite C.
  reflexivity.
Qed.

Lemma identifier_ignores_case_witness :
  (PyStr.is_ascii "myIcon" = true
   /\ PyStr.is_ascii "MyICON" = true
   /\ PyStr.ascii_lower "myIcon" = PyStr.ascii_lower "MyICON")
  /\ PyStr.capitalize (CaseMap := PyStr.ascii_case) "myIcon"
     = PyStr.capitalize (CaseMap := PyStr.ascii_case) "MyICON"
  /\ JField.__str__ (U := PyStr.ascii_case)
       (JField.mk "myIcon" (-243615037) 0 "icons/x")
     = JField.__str__ (U := PyStr.ascii_case)
         (JField.mk "MyICON" (-243615037) 0 "icons/x").
Proof.
  split; [repeat split|].
  apply (identifier_ignores_case (U := PyStr.ascii_case) "myIcon" "MyICON"
           (-243615037) 0 "icons/x");
    reflexivity.
Defined.

(** ** The command line *)

Lemma leaf_in_dict (d : dict) (k : string) (f : JField.t) :
  In (k, Leaf f) d -> In f (dict_leaves d).
Proof.
  induction d as [|[k' [f'|m]] d IH]; cbn; [tauto| |].
  - intros [H|H]; [left; congruence | right; apply IH; exact H].
  - intros [H|H]; [discriminate H | apply IH; exact H].
Qed.

Lemma every_dict_leaves (Q : JField.t -> Prop) (v : node) :
  every_dict (fun d => forall f, In f (dict_leaves d) -> Q f) v ->
  forall m, v = Sub m -> forall f, In f (tree_leaves m) -> Q f.
Proof.
  induction v as [f0|m0 IH] using node_nested_ind; intros E m Hv f Hf;
    [discriminate Hv|].
  injection Hv as <-. inversion E as [|? HP F]; subst.
  unfold tree_leaves in Hf. cbn [node_leaves] in Hf.
  apply in_flat_map in Hf as ([k' v'] & Hkv & Hf).
  destruct v' as [f'|m'].
  - destruct Hf as [<-|[]]. apply HP. apply (leaf_in_dict _ _ _ Hkv).
  - assert (H1 := proj1 (Forall_forall _ _) IH (k', Sub m') Hkv).
    assert (H2 := proj1 (Forall_forall _ _) F (k', Sub m') Hkv).
    apply (H1 H2 m' eq_refl f Hf).
Qed.

Lemma flags_in_range_file (self : IconCollector.t) (path : Path.t) (d : dict) :
  flags_in_range d -> flags_in_range (IconCollector._process_file self path d).
Proof.
  intros H f Hin.
  apply process_file_leaves in Hin as [Hin|[(e0 & He & ->)|(p & ->)]].
  - apply H. exact Hin.
  - cbn [JField.or_flags JField.flags]. apply lor_flag_range. apply H.
    exact He.
  - cbn [JField.flags].
    destruct (get_flags_range (Path.name path)) as [E|[E|[E|[E|E]]]];
      rewrite E; lia.
Qed.

(** X19: in the file that the command line writes, the key of every entry is
    negative and below the start key -243615036, so its literal starts with
    [-0x], and the flags are between 0 and 15, so their literal starts with
    [0x]. *)
Theorem main_literals (argv : Main.args) (children : list fsentry)
                      (f : JField.t) :
  In f (tree_leaves (IconCollector.icon_map (Main.collect argv children))) ->
  JField.key f < -243615036
  /\ PyStr.starts_with "-0x" (JField.hex (JField.key f)) = true
  /\ 0 <= JField.flags f <= 15
  /\ PyStr.starts_with "0x" (JField.hex (JField.flags f)) = true.
Proof.
  intros Hf. unfold Main.collect in Hf.
  set (self := IconCollector.__init__ None (Some (Main.src argv)) None) in *.
  set (dir := Path.of_string (Main.path argv)) in *.
  assert (K : JField.key f < -243615036).
  { destruct (process_snd self dir children) as (T & _). rewrite T in Hf.
    pose proof (keys_ok_dir self dir children (IconCollector.icon_map self))
      as (_ & _ & A3 & A4 & _).
    destruct (A4 (JField.key f)) as [[]|H];
      [unfold tree_keys; apply in_map; exact Hf|].
    apply (A3 _ H). }
  assert (R : 0 <= JField.flags f <= 15).
  { assert (E : every_dict flags_in_range
                  (Sub (IconCollector.icon_map
                          (IconCollector.process self dir children)))).
    { apply process_every.
      - intros f0 [].
      - intros k0 m d H f0 Hin.
        apply dict_set_leaves_in in Hin as [Hin|Hin];
          [apply H; exact Hin | discriminate Hin].
      - apply flags_in_range_file. }
    apply (every_dict_leaves (fun f0 => 0 <= JField.flags f0 <= 15) _ E
             _ eq_refl f Hf). }
  split; [exact K|]. split; [|split; [exact R|]].
  - pose proof (hex_sign (JField.key f)) as S.
    destruct (JField.key f <? 0) eqn:L; [exact S | apply Z.ltb_ge in L; lia].
  - pose proof (hex_sign (JField.flags f)) as S.
    destruct (JField.flags f <? 0) eqn:L; [apply Z.ltb_lt in L; lia | exact S].
Qed.

Lemma main_literals_witness :
  let argv := Main.mk "icons" "./AllIcons.java" "AllIcons" "java" "icons" in
  let children := [File "foo.svg"; File "foo_dark.svg"] in
  let f := JField.mk "foo" (-243615037) 2 "icons/foo" in
  In f (tree_leaves (IconCollector.icon_map (Main.collect argv children)))
  /\ JField.key f < -243615036
  /\ PyStr.starts_with "-0x" (JField.hex (JField.key f)) = true
  /\ 0 <= JField.flags f <= 15
  /\ PyStr.starts_with "0x" (JField.hex (JField.flags f)) = true.
Proof.
  split; [left; reflexivity|].
  apply (main_literals
           (Main.mk "icons" "./AllIcons.java" "AllIcons" "java" "icons")
           [File "foo.svg"; File "foo_dark.svg"]
           (JField.mk "foo" (-243615037) 2 "icons/foo")).
  left. reflexivity.
Defined.

Lemma process_dir_no_icons (names : list string) :
  forall self path imap,
    forallb (fun nm => negb (is_icon self (Path.joinpath path nm))) names
    = true ->
    snd (IconCollector._process_dir self path (map File names) imap) = imap.
Proof.
  induction names as [|nm l IH]; intros self path imap H; [reflexivity|].
  cbn [forallb] in H. apply andb_prop in H as [H1 H2].
  apply negb_true_iff in H1. cbn [map].
  rewrite process_dir_cons, process_child_File. cbn [fst snd].
  rewrite process_file_skip by (rewrite process_file_config; exact H1).
  apply IH. exact H2.
Qed.

(** X20: for a directory that holds files only, none of them with an
    accepted extension (an empty directory for one), the command line writes
    the header followed at once by the footer. *)
Theorem main_without_icons {U : PyStr.CaseMap} (argv : Main.args)
                           (names : list string) :
  forallb (fun nm =>
             negb (is_icon (IconCollector.__init__ None (Some (Main.src argv))
                                                   None)
                           (Path.joinpath (Path.of_string (Main.path argv))
                                          nm)))
          names = true ->
  Main.main argv (map File names)
  = get_header (Main.package argv) (Main.name argv) ++ FOOTER.
Proof.
  intros H. unfold Main.main, Main.collect.
  destruct (process_snd
              (IconCollector.__init__ None (Some (Main.src argv)) None)
              (Path.of_string (Main.path argv)) (map File names)) as (T & _).
  rewrite T, (process_dir_no_icons names _ _ _ H). reflexivity.
Qed.

Lemma main_without_icons_witness :
  let argv := Main.mk "icons" "./AllIcons.java" "AllIcons" "java" "icons" in
  let names := ["README.md"; "icon.jpeg"; "svg"; ".svg"] in
  forallb (fun nm =>
             negb (is_icon (IconCollector.__init__ None (Some (Main.src argv))
                                                   None)
                           (Path.joinpath (Path.of_string (Main.path argv))
                                          nm)))
          names = true
  /\ Main.main (U := PyStr.ascii_case) argv (map File names)
     = get_header (Main.package argv) (Main.name argv) ++ FOOTER.
Proof.
  split; [reflexivity|].
  apply (main_without_icons (U := PyStr.ascii_case)
           (Main.mk "icons" "./AllIcons.java" "AllIcons" "java" "icons")
           ["README.md"; "icon.jpeg"; "svg"; ".svg"]).
  reflexivity.
Defined.

(** ** Variants *)

Section Variants.

Import PyStr.

Lemma take_drop (n : nat) (s : string) : take n s ++ drop n s = s.
Proof.
  revert s. induction n as [|n IH]; intros s; [reflexivity|].
  destruct s as [|c s]; [reflexivity|]. cbn. rewrite IH. reflexivity.
Qed.

Lemma rfind_dot_spec (s : string) (i : nat) :
  rfind_dot s = Some i -> starts_with "." (drop i s) = true.
Proof.
  revert i. induction s as [|c s IH]; intros i H; [discriminate H|].
  cbn [rfind_dot] in H. destruct (rfind_dot s) as [j|].
  - injection H as <-. cbn [drop]. apply IH. reflexivity.
  - destruct (Ascii.eqb c ".") eqn:E; [|discriminate H].
    injection H as <-. cbn [drop starts_with].
    rewrite Ascii.eqb_sym, E. reflexivity.
Qed.

Lemma starts_with_app_self (a b : string) : starts_with a (a ++ b) = true.
Proof.
  induction a as [|c a IH]; [reflexivity|]. cbn [append starts_with].
  rewrite Ascii.eqb_refl, IH. reflexivity.
Qed.

(** The name of a path is its stem followed by its suffix, and a suffix
    that is not empty starts with a dot. *)
Lemma stem_suffix (p : Path.t) :
  Path.stem p ++ Path.suffix p = Path.name p
  /\ (Path.suffix p <> "" -> starts_with "." (Path.suffix p) = true).
Proof.
  unfold Path.stem, Path.suffix, Path.suffix_index.
  destruct (rfind_dot (Path.name p)) as [i|] eqn:R.
  - destruct ((0 <? i)%nat && (i <? length (Path.name p) - 1)%nat).
    + split; [apply take_drop | intros _; apply (rfind_dot_spec _ _ R)].
    + split; [apply append_nil_r | intros H; contradiction].
  - split; [apply append_nil_r | intros H; contradiction].
Qed.

End Variants.

(** X21: a file with an accepted extension whose normalized name is already
    in the dict changes nothing but flags: the dict keeps its keys, their
    order and the number of its entries, and every entry keeps its name, its
    key and its path. *)
Theorem variant_changes_flags_only (self : IconCollector.t) (path : Path.t)
                                   (dest : dict) :
  is_icon self path = true ->
  named (normalize_name (Path.stem path)) dest <> [] ->
  let dest' := IconCollector._process_file self path dest in
  map fst dest' = map fst dest
  /\ map JField.name (dict_leaves dest') = map JField.name (dict_leaves dest)
  /\ map JField.key (dict_leaves dest') = map JField.key (dict_leaves dest)
  /\ map JField.path (dict_leaves dest') = map JField.path (dict_leaves dest).
Proof.
  intros Hi Hn dest'. subst dest'.
  destruct (named (normalize_name (Path.stem path)) dest) as [|f rest] eqn:E;
    [contradiction|].
  destruct (process_file_merged self path dest f rest Hi E) as [M _].
  revert M. generalize (IconCollector._process_file self path dest) as d'.
  generalize (normalize_name (Path.stem path)) as nm.
  generalize (get_flags (Path.name path)) as fl. clear.
  intros fl nm d'. revert d'.
  induction dest as [|[k [f|m]] d IH]; intros d' M;
    cbn [IconCollector.merge_flags] in M.
  - discriminate M.
  - destruct (String.eqb (JField.name f) nm).
    + injection M as <-. repeat split.
    + destruct (IconCollector.merge_flags nm fl d) as [d0|]; [|discriminate M].
      injection M as <-. destruct (IH d0 eq_refl) as (H1 & H2 & H3 & H4).
      cbn [map fst dict_leaves]. rewrite H1, H2, H3, H4. repeat split.
  - destruct (IconCollector.merge_flags nm fl d) as [d0|]; [|discriminate M].
    injection M as <-. destruct (IH d0 eq_refl) as (H1 & H2 & H3 & H4).
    cbn [map fst dict_leaves]. rewrite H1. repeat split; assumption.
Qed.

Lemma variant_changes_flags_only_witness :
  let self := IconCollector.mk [] (-243615039) "icons" [".svg"; ".png"] in
  let path := Path.of_string "icons/foo_dark.svg" in
  let dest :=
    [("icons/bar", Leaf (JField.mk "bar" (-243615037) 0 "icons/bar"));
     ("icons/foo", Leaf (JField.mk "foo" (-243615038) 1 "icons/foo"))] in
  let dest' := IconCollector._process_file self path dest in
  (is_icon self path = true
   /\ named (normalize_name (Path.stem path)) dest <> [])
  /\ map fst dest' = map fst dest
  /\ map JField.name (dict_leaves dest') = map JField.name (dict_leaves dest)
  /\ map JField.key (dict_leaves dest') = map JField.key (dict_leaves dest)
  /\ map JField.path (dict_leaves dest') = map JField.path (dict_leaves dest).
Proof.
  split; [split; [reflexivity | discriminate]|].
  apply (variant_changes_flags_only
           (IconCollector.mk [] (-243615039) "icons" [".svg"; ".png"])
           (Path.of_string "icons/foo_dark.svg")
           [("icons/bar", Leaf (JField.mk "bar" (-243615037) 0 "icons/bar"));
            ("icons/foo", Leaf (JField.mk "foo" (-243615038) 1 "icons/foo"))]);
    [reflexivity | discriminate].
Defined.

(** X22: a file whose stem ends in ["@2x"] and that has a suffix gets the
    flag 1 from its name, whatever else the stem holds: the dot of the suffix
    completes ["@2x."]. *)
Theorem stem_2x_is_high_dpi (p : Path.t) (pre : string) :
  Path.suffix p <> "" ->
  Path.stem p = pre ++ "@2x" ->
  get_flags (Path.name p) = 1.
Proof.
  intros Hs Hst. destruct (stem_suffix p) as [E D]. specialize (D Hs).
  destruct (Path.suffix p) as [|c r] eqn:S; [contradiction|].
  cbn [PyStr.starts_with] in D. apply andb_prop in D as [D _].
  apply Ascii.eqb_eq in D. subst c.
  assert (C : PyStr.contains "@2x." (Path.name p) = true).
  { rewrite <- E, Hst, append_assoc. apply contains_app_r.
    apply contains_here.
    change ("@2x" ++ String "." r) with ("@2x." ++ r).
    apply starts_with_app_self. }
  unfold get_flags. rewrite C. reflexivity.
Qed.

Lemma stem_2x_is_high_dpi_witness :
  let p := Path.of_string "icons/run_dark_stroke@2x.png" in
  (Path.suffix p <> "" /\ Path.stem p = "run_dark_stroke" ++ "@2x")
  /\ get_flags (Path.name p) = 1.
Proof.
  split; [split; [discriminate | reflexivity]|].
  apply (stem_2x_is_high_dpi (Path.of_string "icons/run_dark_stroke@2x.png")
                             "run_dark_stroke");
    [discriminate | reflexivity].
Defined.
